(** * WorkHome wagering server: ledger and wager resolution (src/server.js)

    A shallow embedding of the request handlers of [src/server.js] that touch
    the account ledger: place bet, deposit, withdraw, bet history, together
    with the four game resolvers they call.

    Modelling choices.
    - The handlers are embedded twice.  The first part takes the amounts of
      a request to be numbers and computes on them exactly, on rationals
      ([Q]); it states what the ledger does on numeric requests where double
      arithmetic is exact.  The second part (module [Js]) embeds the same
      handlers on raw JavaScript values: an amount is whatever the request
      body holds, the operators convert as JavaScript does, and every
      arithmetic result is rounded to a double.  Numbers are compared with
      [Qeq] (written [==]), which is what [===] does on finite numbers.
    - The three [Map]s of the source are global mutable state; each handler
      becomes a function from the store before the request to the response
      and the store after it.  A handler of the source is a synchronous
      callback, so it runs from its first line to its response without
      interleaving with another handler.
    - [Math.random()], [Date.now()] and [new Date()] are read from an
      environment given to the handler: the k-th call of the request returns
      the k-th element. *)

From Stdlib Require Import ZArith QArith Qround Qpower Qabs Lqa Lia List Bool.
From Stdlib Require Import String DecimalString.
From Stdlib Require Import Permutation Sorted.
From stdpp Require Import gmap strings list fin_maps.

Open Scope Q_scope.

(** ** JavaScript values and operators *)

(** Values a JSON request body can put in a field.  [JObj] stands for any
    object or array: the handlers only test it for truthiness and compare it
    with [===] against a number or a string. *)
Inductive JsVal : Type :=
  | JUndefined
  | JNull
  | JBool (b : bool)
  | JNum (q : Q)
  | JStr (s : string)
  | JObj.

(** [a < b] on numbers. *)
Definition Qltb (a b : Q) : bool := negb (Qle_bool b a).

(** [n === v] for a number [n]. *)
Definition strict_eq_num (n : Q) (v : JsVal) : bool :=
  match v with
  | JNum q => Qeq_bool n q
  | _ => false
  end.

(** [v === s] for a string [s]. *)
Definition strict_eq_str (v : JsVal) (s : string) : bool :=
  match v with
  | JStr t => String.eqb t s
  | _ => false
  end.

(** Truthiness, as tested by [!v]. *)
Definition truthy (v : JsVal) : bool :=
  match v with
  | JUndefined | JNull => false
  | JBool b => b
  | JNum q => negb (Qeq_bool q 0)
  | JStr s => negb (String.eqb s "")
  | JObj => true
  end.

(** [Math.floor(r * n)] for a draw [r] of [Math.random()]. *)
Definition floor_scaled (r : Q) (n : Z) : Z := Qfloor (r * inject_Z n).

(** [arr[i]]: [None] is [undefined], also for an index out of range. *)
Definition js_index {A : Type} (arr : list A) (i : Z) : option A :=
  if (i <? 0)%Z then None else nth_error arr (Z.to_nat i).

(** A call either returns or throws; the only exception the handlers can
    meet is the [TypeError] of reading a property of [undefined] or [null]. *)
Inductive Exc (A : Type) : Type :=
  | Ret (a : A)
  | Throw.
Arguments Ret {A} a.
Arguments Throw {A}.

(** ** Data model *)

(** The user object stored in [users].  The credentials and contact fields
    (name, email, phone, password, createdAt) are never read by the ledger
    handlers and are left out. *)
Record User : Type := mkUser {
  uid : string;
  balance : Q;
  totalBet : Q;
  totalWon : Q;
  totalBets : Z;
  isActive : bool
}.

(** [gameData] of a bet request, seen through the two properties the
    resolvers read from it ([JUndefined] when the property is absent, as it
    is on a number or a string).  A [gameData] that is [undefined] or [null]
    has no properties to read and is [None] wherever the type
    [option GameFields] is used. *)
Record GameFields : Type := mkGameFields {
  selectedNumber : JsVal;
  choice : JsVal
}.

(** The seven slot symbols, in the order of the [symbols] array. *)
Inductive Symbol : Type :=
  | Cherry | Lemon | Orange | Grape | Diamond | Star | Seven.

Inductive Side : Type := heads | tails.

(** The game-specific part of a resolver's result object. *)
Inductive Outcome : Type :=
  | NumbersOutcome (winningNumber : Z) (selected : JsVal)
  | SlotsOutcome (s1 s2 s3 : option Symbol)
  | WheelOutcome (multiplier : option Q) (segment : Z)
  | CoinOutcome (result : Side) (chosen : JsVal).

Record GameResult : Type := mkGameResult {
  won : bool;
  prize : Q;
  outcome : Outcome
}.

(** [generateId()] prints [Date.now()] and a [Math.random()] draw in base 36
    and concatenates them; the identifier is modelled by the two numbers it
    prints, and equality of identifiers by equality of both. *)
Record Id : Type := mkId {
  id_time : Z;
  id_rand : Q
}.

Definition Id_eqb (a b : Id) : bool :=
  (id_time a =? id_time b)%Z && Qeq_bool (id_rand a) (id_rand b).

Record BetRecord : Type := mkBetRecord {
  bet_id : Id;
  bet_userId : string;
  bet_game : JsVal;
  bet_betAmount : Q;
  bet_result : Q;
  bet_won : bool;
  bet_gameData : option GameFields;
  bet_resultData : GameResult;
  bet_timestamp : Z
}.

Inductive TxType : Type := deposit_t | withdraw_t.
Inductive TxStatus : Type := completed | pending.

Record Transaction : Type := mkTransaction {
  tx_id : Id;
  tx_userId : string;
  tx_type : TxType;
  tx_amount : Q;
  tx_iban : JsVal;
  tx_accountName : JsVal;
  tx_status : TxStatus;
  tx_timestamp : Z
}.

(** A JavaScript [Map] keyed by identifiers, in insertion order. *)
Definition JsMap (V : Type) : Type := list (Id * V).

(** [m.set(k, v)]: an existing key keeps its place and takes the new value,
    a new key goes to the end. *)
Fixpoint map_set {V : Type} (k : Id) (v : V) (m : JsMap V) : JsMap V :=
  match m with
  | [] => [(k, v)]
  | (k', v') :: rest =>
      if Id_eqb k' k then (k', v) :: rest else (k', v') :: map_set k v rest
  end.

(** [Array.from(m.values())]. *)
Definition map_values {V : Type} (m : JsMap V) : list V := map snd m.

(** The in-memory database. *)
Record World : Type := mkWorld {
  users : gmap string User;
  transactions : JsMap Transaction;
  bets : JsMap BetRecord
}.

(** What a handler reads from outside during one request. *)
Record Env : Type := mkEnv {
  random : nat -> Q;
  clock : nat -> Z
}.

(** ** Game resolvers (lines 321-379) *)

#[global] Instance Symbol_eq_dec : EqDecision Symbol.
Proof. solve_decision. Defined.

Definition symbols : list Symbol :=
  [Cherry; Lemon; Orange; Grape; Diamond; Star; Seven].

(** The multiplier table of the wheel. *)
Definition prizes : list Q := [2; 0; 3 # 2; 0; 3; 0; 5; 0].

Definition side_name (s : Side) : string :=
  match s with
  | heads => "heads"
  | tails => "tails"
  end.

(** [processNumbersGame(betAmount, gameData)], with [r] the value of its one
    [Math.random()] call.  Reading [gameData.selectedNumber] throws when
    [gameData] is [undefined] or [null] ([None] here). *)
Definition processNumbersGame (betAmount : Q) (gameData : option GameFields)
    (r : Q) : Exc GameResult :=
  match gameData with
  | None => Throw
  | Some gd =>
      let selectedNumber := selectedNumber gd in
      let winningNumber := (floor_scaled r 25 + 1)%Z in
      let won := strict_eq_num (inject_Z winningNumber) selectedNumber in
      let prize := if won then betAmount * 24 else 0 in
      Ret (mkGameResult won prize (NumbersOutcome winningNumber selectedNumber))
  end.

(** [processSlotsGame(betAmount)] with its three draws.  [===] on two array
    reads is equality of the symbols read, [undefined] included. *)
Definition processSlotsGame (betAmount : Q) (r1 r2 r3 : Q) : GameResult :=
  let n := Z.of_nat (length symbols) in
  let result1 := js_index symbols (floor_scaled r1 n) in
  let result2 := js_index symbols (floor_scaled r2 n) in
  let result3 := js_index symbols (floor_scaled r3 n) in
  let won := bool_decide (result1 = result2) && bool_decide (result2 = result3) in
  let prize := if won then betAmount * 10 else 0 in
  mkGameResult won prize (SlotsOutcome result1 result2 result3).

(** [processWheelGame(betAmount)] with its draw.  An index outside the table
    reads [undefined]: the comparison [undefined > 0] is false and the
    product is NaN, which is written 0 here; it is never credited, because
    [won] is false, and it cannot arise from a draw below 1. *)
Definition processWheelGame (betAmount : Q) (r : Q) : GameResult :=
  let prizeIndex := floor_scaled r (Z.of_nat (length prizes)) in
  let multiplier := js_index prizes prizeIndex in
  let won := match multiplier with Some m => Qltb 0 m | None => false end in
  let prize := match multiplier with Some m => betAmount * m | None => 0 end in
  mkGameResult won prize (WheelOutcome multiplier prizeIndex).

(** [processCoinGame(betAmount, gameData)] with its draw. *)
Definition processCoinGame (betAmount : Q) (gameData : option GameFields)
    (r : Q) : Exc GameResult :=
  match gameData with
  | None => Throw
  | Some gd =>
      let choice := choice gd in
      let result := if Qltb r (1 # 2) then heads else tails in
      let won := strict_eq_str choice (side_name result) in
      let prize := if won then betAmount * 2 else 0 in
      Ret (mkGameResult won prize (CoinOutcome result choice))
  end.

(** ** Requests and responses *)

Record BetBody : Type := mkBetBody {
  game : JsVal;
  betAmount : Q;
  gameData : option GameFields
}.

Record WithdrawBody : Type := mkWithdrawBody {
  amount : Q;
  iban : JsVal;
  accountName : JsVal
}.

(** The [message] of an error response; the text of the source is given
    beside each constructor. *)
Inductive Message : Type :=
  | NaoAutenticado            (* "Nao autenticado" *)
  | UtilizadorNaoEncontrado   (* "Utilizador nao encontrado" *)
  | ValorMinimoAposta         (* "Valor minimo de aposta: 100 Kz" *)
  | SaldoInsuficiente         (* "Saldo insuficiente" *)
  | JogoInvalido              (* "Jogo invalido" *)
  | ErroProcessarAposta       (* "Erro ao processar aposta" *)
  | ValorMinimoDeposito       (* "Valor minimo de deposito: 1.000 Kz" *)
  | ValorMinimoLevantamento   (* "Valor minimo de levantamento: 1.000 Kz" *)
  | IbanNomeObrigatorios.     (* "IBAN e nome do titular sao obrigatorios" *)

Inductive Response : Type :=
  | BetOk (result : GameResult) (bal tBet tWon : Q) (tBets : Z)
  | TxOk (bal : Q) (transaction : Transaction)
  | BetsOk (history : list BetRecord)
  | Failure (status : Z) (message : Message).

Definition is_failure (r : Response) : bool :=
  match r with
  | Failure _ _ => true
  | _ => false
  end.

(** ** Handlers *)

(** The [switch (game)] of the place-bet handler (lines 259-277): the result
    of the resolver together with the number of draws it consumed, or [None]
    for the [default] branch. *)
Definition switch_game (env : Env) (b : BetBody) : option (Exc GameResult * nat) :=
  if strict_eq_str (game b) "numbers" then
    Some (processNumbersGame (betAmount b) (gameData b) (random env 0), 1%nat)
  else if strict_eq_str (game b) "slots" then
    Some (Ret (processSlotsGame (betAmount b) (random env 0) (random env 1)
                 (random env 2)), 3%nat)
  else if strict_eq_str (game b) "wheel" then
    Some (Ret (processWheelGame (betAmount b) (random env 0)), 1%nat)
  else if strict_eq_str (game b) "coin" then
    Some (processCoinGame (betAmount b) (gameData b) (random env 0), 1%nat)
  else None.

(** Lines 279-287: the stake is debited and counted, then a prize is
    credited when the bet was won. *)
Definition settle (user : User) (stake : Q) (result : GameResult) : User :=
  let user1 := mkUser (uid user) (balance user - stake) (totalBet user + stake)
                 (totalWon user) (totalBets user + 1)%Z (isActive user) in
  if won result then
    mkUser (uid user1) (balance user1 + prize result) (totalBet user1)
      (totalWon user1 + prize result) (totalBets user1) (isActive user1)
  else user1.

(** POST /api/bets/place (lines 229-319), after [isAuthenticated].  A throw
    inside the [try] block is caught and answered with status 500. *)
Definition placeBet (env : Env) (userId : string) (b : BetBody) (w : World)
    : Response * World :=
  match users w !! userId with
  | None => (Failure 404 UtilizadorNaoEncontrado, w)
  | Some user =>
      if Qltb (betAmount b) 100 then (Failure 400 ValorMinimoAposta, w)
      else if Qltb (balance user) (betAmount b) then
        (Failure 400 SaldoInsuficiente, w)
      else
        match switch_game env b with
        | None => (Failure 400 JogoInvalido, w)
        | Some (Throw, _) => (Failure 500 ErroProcessarAposta, w)
        | Some (Ret result, drawn) =>
            let user' := settle user (betAmount b) result in
            let betId := mkId (clock env 0) (random env drawn) in
            let betRecord :=
              mkBetRecord betId (uid user') (game b) (betAmount b)
                (if won result then prize result else - betAmount b)
                (won result) (gameData b) result (clock env 1) in
            (BetOk result (balance user') (totalBet user') (totalWon user')
               (totalBets user'),
             mkWorld (<[userId := user']> (users w)) (transactions w)
               (map_set betId betRecord (bets w)))
        end
  end.

(** POST /api/transactions/deposit (lines 382-429). *)
Definition deposit (env : Env) (userId : string) (amount : Q) (w : World)
    : Response * World :=
  match users w !! userId with
  | None => (Failure 404 UtilizadorNaoEncontrado, w)
  | Some user =>
      if Qltb amount 1000 then (Failure 400 ValorMinimoDeposito, w)
      else
        let user' := mkUser (uid user) (balance user + amount) (totalBet user)
                       (totalWon user) (totalBets user) (isActive user) in
        let transactionId := mkId (clock env 0) (random env 0) in
        let transaction :=
          mkTransaction transactionId (uid user') deposit_t amount JUndefined
            JUndefined completed (clock env 1) in
        (TxOk (balance user') transaction,
         mkWorld (<[userId := user']> (users w))
           (map_set transactionId transaction (transactions w)) (bets w))
  end.

(** POST /api/transactions/withdraw (lines 432-495). *)
Definition withdraw (env : Env) (userId : string) (b : WithdrawBody) (w : World)
    : Response * World :=
  match users w !! userId with
  | None => (Failure 404 UtilizadorNaoEncontrado, w)
  | Some user =>
      if Qltb (amount b) 1000 then (Failure 400 ValorMinimoLevantamento, w)
      else if Qltb (balance user) (amount b) then
        (Failure 400 SaldoInsuficiente, w)
      else if negb (truthy (iban b)) || negb (truthy (accountName b)) then
        (Failure 400 IbanNomeObrigatorios, w)
      else
        let user' := mkUser (uid user) (balance user - amount b)
                       (totalBet user) (totalWon user) (totalBets user)
                       (isActive user) in
        let transactionId := mkId (clock env 0) (random env 0) in
        let transaction :=
          mkTransaction transactionId (uid user') withdraw_t (amount b)
            (iban b) (accountName b) pending (clock env 1) in
        (TxOk (balance user') transaction,
         mkWorld (<[userId := user']> (users w))
           (map_set transactionId transaction (transactions w)) (bets w))
  end.

(** [arr.sort(cmp)]: the sort is stable, and [a] goes before [b] when
    [cmp(a, b)] is negative.  A stable sort by a comparator that is a
    difference of keys has one possible result, whatever algorithm the engine
    runs; it is written here as an insertion sort. *)
Fixpoint js_insert {A : Type} (cmp : A -> A -> Z) (x : A) (l : list A) : list A :=
  match l with
  | [] => [x]
  | y :: l' => if (cmp x y <=? 0)%Z then x :: y :: l' else y :: js_insert cmp x l'
  end.

Definition js_sort {A : Type} (cmp : A -> A -> Z) (l : list A) : list A :=
  foldr (js_insert cmp) [] l.

(** GET /api/bets/history (lines 498-517): filter by owner, sort by
    [b.timestamp - a.timestamp], keep the first 50. *)
Definition betHistory (userId : string) (w : World) : list BetRecord :=
  firstn 50
    (js_sort (fun a b => (bet_timestamp b - bet_timestamp a)%Z)
       (filter (fun bet => bet_userId bet = userId) (map_values (bets w)))).

(** GET /api/transactions/history (lines 520-538): the same without a cap. *)
Definition transactionHistory (userId : string) (w : World) : list Transaction :=
  js_sort (fun a b => (tx_timestamp b - tx_timestamp a)%Z)
    (filter (fun t => tx_userId t = userId) (map_values (transactions w))).

(** ** The server as a transition system *)

Inductive Request : Type :=
  | PlaceBet (b : BetBody)
  | Deposit (amount : Q)
  | Withdraw (b : WithdrawBody)
  | BetHistory.

(** [isAuthenticated] (lines 41-47): the session must carry a truthy
    [userId]. *)
Definition isAuthenticated (session : option string) : option string :=
  match session with
  | Some s => if String.eqb s "" then None else Some s
  | None => None
  end.

Definition handle (env : Env) (session : option string) (req : Request)
    (w : World) : Response * World :=
  match isAuthenticated session with
  | None => (Failure 401 NaoAutenticado, w)
  | Some userId =>
      match req with
      | PlaceBet b => placeBet env userId b w
      | Deposit amount => deposit env userId amount w
      | Withdraw b => withdraw env userId b w
      | BetHistory => (BetsOk (betHistory userId w), w)
      end
  end.

(** One incoming request: what the handler reads from outside, who sent it,
    and what was asked. *)
Record Call : Type := mkCall {
  call_env : Env;
  call_session : option string;
  call_req : Request
}.

Definition step (w : World) (c : Call) : World :=
  snd (handle (call_env c) (call_session c) (call_req c) w).

(** The store after a sequence of requests, served in order. *)
Definition run (cs : list Call) (w : World) : World := fold_left step cs w.

(** ** Predicates used in the statements *)

(** Every stored balance is non-negative. *)
Definition balances_nonneg (w : World) : Prop :=
  map_Forall (fun _ u => 0 <= balance u) (users w).

(** The game tags with a [case] in the [switch]. *)
Definition known_game (g : JsVal) : bool :=
  strict_eq_str g "numbers" || strict_eq_str g "slots"
  || strict_eq_str g "wheel" || strict_eq_str g "coin".

(** [Number.isInteger(q)]. *)
Definition is_integer (q : Q) : bool := Qeq_bool (inject_Z (Qfloor q)) q.






(** The change of balance a place-bet response reports: the prize, if any,
    minus the stake for a resolved bet, nothing for a refused one. *)
Definition applied_delta (resp : Response) (b : BetBody) : Q :=
  match resp with
  | BetOk res _ _ _ _ => (if won res then prize res else 0) - betAmount b
  | _ => 0
  end.

(** Bets of one account served one after the other: the sum of the applied
    deltas, and the store at the end. *)
Fixpoint serve_bets (userId : string) (bs : list (Env * BetBody)) (w : World)
    : Q * World :=
  match bs with
  | [] => (0, w)
  | (env, b) :: rest =>
      let (resp, w') := placeBet env userId b w in
      let (total, w'') := serve_bets userId rest w' in
      (applied_delta resp b + total, w'')
  end.






(** ** Sample data

    An account as registration creates it (line 92: a welcome bonus of
    100000), and an environment whose draws are all 0.25. *)

Definition alice : User := mkUser "alice" 100000 0 0 0 true.

Definition fresh_world : World := mkWorld {[ "alice" := alice ]} [] [].

Definition sample_env : Env :=
  mkEnv (fun _ => 1 # 4) (fun k => (1700000000000 + Z.of_nat k)%Z).

Definition sample_fields : GameFields := mkGameFields (JNum 7) (JStr "heads").

Definition low_stake_bet : BetBody :=
  mkBetBody (JStr "numbers") 50 (Some sample_fields).



Definition odd_wheel_bet : BetBody := mkBetBody (JStr "wheel") 101 None.

(** A bet of 99500 on number 3; with the sample draw the winning number is
    7, so it leaves [alice] with 500. *)
Definition big_losing_bet : BetBody :=
  mkBetBody (JStr "numbers") 99500 (Some (mkGameFields (JNum 3) JUndefined)).

Definition poor_world : World :=
  run [mkCall sample_env (Some "alice") (PlaceBet big_losing_bet)] fresh_world.

Definition small_withdraw : WithdrawBody :=
  mkWithdrawBody 600 (JStr "AO06") (JStr "Alice").


Definition alice_call (req : Request) : Call :=
  mkCall sample_env (Some "alice") req.


Definition sample_calls : list Call :=
  [ alice_call (PlaceBet (mkBetBody (JStr "wheel") 101 None));
    alice_call (Deposit 1000);
    alice_call (Withdraw (mkWithdrawBody 5000 (JStr "AO06") (JStr "Alice")));
    alice_call (PlaceBet (mkBetBody (JStr "numbers") 100 (Some sample_fields)));
    alice_call BetHistory ].

(** ** The balance query, and predicates for the further properties *)

Inductive BalanceResponse : Type :=
  | BalanceOk (bal tBet tWon : Q) (tBets : Z)
  | BalanceFailure (status : Z) (message : Message).

(** GET /api/user/balance (lines 210-226), after [isAuthenticated]. *)
Definition getBalance (userId : string) (w : World) : BalanceResponse :=
  match users w !! userId with
  | None => BalanceFailure 404 UtilizadorNaoEncontrado
  | Some user =>
      BalanceOk (balance user) (totalBet user) (totalWon user) (totalBets user)
  end.

(** The games whose resolver reads a property of [gameData]. *)
Definition needs_gameData (g : JsVal) : bool :=
  strict_eq_str g "numbers" || strict_eq_str g "coin".

(** Every user object is stored under its own [id]. *)
Definition keys_match (w : World) : Prop :=
  map_Forall (fun k u => uid u = k) (users w).

(** No key of the map is the identifier [k]. *)
Definition fresh_id {V : Type} (k : Id) (m : JsMap V) : bool :=
  forallb (fun e => negb (Id_eqb (fst e) k)) m.

(** The identifier and the record a request would store. *)
Definition bet_id_of (env : Env) (drawn : nat) : Id :=
  mkId (clock env 0) (random env drawn).

(** The request is sent by a session other than [userId]'s. *)
Definition not_sent_by (userId : string) (c : Call) : Prop :=
  isAuthenticated (call_session c) <> Some userId.

Definition wheel_100 : BetBody := mkBetBody (JStr "wheel") 100 None.

(** A later request, and the store after [alice] placed one wheel bet. *)
Definition later_env : Env :=
  mkEnv (fun _ => 3 # 4) (fun k => (1700000005000 + Z.of_nat k)%Z).

Definition one_bet_world : World :=
  snd (placeBet sample_env "alice" odd_wheel_bet fresh_world).

Definition alice_after_bet : User :=
  settle alice 101 (processWheelGame 101 (1 # 4)).

(** A second account, and the store after it placed one wheel bet. *)
Definition bob : User := mkUser "bob" 5000 0 0 0 true.

Definition two_accounts : World :=
  mkWorld {[ "alice" := alice; "bob" := bob ]} [] [].

Definition bob_bet_world : World :=
  snd (placeBet sample_env "bob" wheel_100 two_accounts).

(** * The handlers on raw JavaScript values

    The definitions above take the amounts of a request as numbers and
    compute on them exactly.  The handlers themselves read [betAmount] and
    [amount] from the request body as they come, compare and combine them
    with the JavaScript operators, and store the result.  This part embeds
    them on JavaScript values, with the conversions of the operators and the
    rounding of double-precision arithmetic. *)

(** ** Double-precision numbers

    A finite double is a rational; [round_double] rounds a rational to the
    nearest double, ties to the even mantissa, with 53 bits of mantissa and
    the subnormal grid [2^-1074].  Overflow to [Infinity] (beyond about
    1.8e308) is not modelled. *)

Definition pow2 (e : Z) : Q := Qpower 2 e.

(** [floor (log2 x)] for a positive [x]. *)
Definition binade (x : Q) : Z :=
  if Qle_bool 1 x then Z.log2 (Qfloor x)
  else (- Z.log2_up (Qceiling (/ x)))%Z.

(** The nearest integer, the even one at a tie. *)
Definition round_half_even (m : Q) : Z :=
  let f := Qfloor m in
  match Qcompare (m - inject_Z f) (1 # 2) with
  | Lt => f
  | Gt => (f + 1)%Z
  | Eq => if Z.even f then f else (f + 1)%Z
  end.

(** The unit in the last place of the doubles around [x]. *)
Definition ulp (x : Q) : Q := pow2 (Z.max (binade x) (-1022) - 52).

Definition round_double (x : Q) : Q :=
  match Qcompare x 0 with
  | Eq => 0
  | Gt => inject_Z (round_half_even (x / ulp x)) * ulp x
  | Lt => - (inject_Z (round_half_even (- x / ulp (- x))) * ulp (- x))
  end.


(** [Math.floor(r * n)], the product being a double. *)
Definition js_floor_mul (r : Q) (n : Z) : Z :=
  Qfloor (round_double (r * inject_Z n)).


Module Js.

(** The values an amount can be: what JSON can put in the field, and what
    the operators make of it.  Objects and arrays are left out. *)
Inductive Value : Type :=
  | Undefined
  | Null
  | Bool (b : bool)
  | Num (q : Q)
  | NaN
  | Str (s : string).

Inductive Number : Type :=
  | Fin (q : Q)
  | NotNum.

(** The results below are [None] where a conversion falls outside the part
    of the language that is modelled. *)
Definition bind {A B : Type} (o : option A) (f : A -> option B) : option B :=
  match o with
  | Some a => f a
  | None => None
  end.

(** [ToNumber]: the empty string is 0, a string of decimal digits is the
    double nearest to its value; other strings are not modelled. *)
Definition ToNumber (v : Value) : option Number :=
  match v with
  | Undefined => Some NotNum
  | Null => Some (Fin 0)
  | Bool b => Some (Fin (if b then 1 else 0))
  | Num q => Some (Fin q)
  | NaN => Some NotNum
  | Str s =>
      match NilEmpty.uint_of_string s with
      | Some d => Some (Fin (round_double (inject_Z (Z.of_uint d))))
      | None => None
      end
  end.

(** [Number::toString]: an integer below 10^21 in magnitude is printed in
    decimal; other finite numbers are not modelled. *)
Definition NumberToString (n : Number) : option string :=
  match n with
  | NotNum => Some "NaN"%string
  | Fin q =>
      if is_integer q && Qltb (Qabs q) (inject_Z (10 ^ 21)) then
        Some (NilZero.string_of_int (Z.to_int (Qfloor q)))
      else None
  end.

Definition ToString (v : Value) : option string :=
  match v with
  | Undefined => Some "undefined"%string
  | Null => Some "null"%string
  | Bool b => Some (if b then "true" else "false")%string
  | Num q => NumberToString (Fin q)
  | NaN => Some "NaN"%string
  | Str s => Some s
  end.

(** [a < b]: two strings are compared as strings (by code unit; the
    strings here are byte strings, which is the same order on ASCII),
    anything else as numbers, and a comparison with NaN is false. *)
Definition lt (a b : Value) : option bool :=
  match a, b with
  | Str s, Str t => Some (String.ltb s t)
  | _, _ =>
      bind (ToNumber a) (fun na =>
      bind (ToNumber b) (fun nb =>
      Some match na, nb with
           | Fin x, Fin y => Qltb x y
           | _, _ => false
           end))
  end.

(** [a > b]. *)
Definition gt (a b : Value) : option bool := lt b a.

(** A binary operator on numbers, the result rounded to a double. *)
Definition arith (op : Q -> Q -> Q) (a b : Value) : option Value :=
  bind (ToNumber a) (fun na =>
  bind (ToNumber b) (fun nb =>
  Some match na, nb with
       | Fin x, Fin y => Num (round_double (op x y))
       | _, _ => NaN
       end)).

(** [a - b] and [a * b]. *)
Definition sub : Value -> Value -> option Value := arith Qminus.
Definition mul : Value -> Value -> option Value := arith Qmult.

(** [a + b]: concatenation as soon as one side is a string. *)
Definition add (a b : Value) : option Value :=
  match a, b with
  | Str _, _ | _, Str _ =>
      bind (ToString a) (fun sa =>
      bind (ToString b) (fun sb => Some (Str (sa ++ sb))))
  | _, _ => arith Qplus a b
  end.

(** [-a]. *)
Definition neg (a : Value) : option Value :=
  bind (ToNumber a) (fun na =>
  Some match na with
       | Fin x => Num (- x)
       | NotNum => NaN
       end).

Record User : Type := mkUser {
  id : string;
  balance : Value;
  totalBet : Value;
  totalWon : Value;
  totalBets : Z;
  isActive : bool
}.

Record GameResult : Type := mkGameResult {
  won : bool;
  prize : Value;
  outcome : Outcome
}.

Record BetRecord : Type := mkBetRecord {
  bet_id : Id;
  bet_userId : string;
  bet_game : JsVal;
  bet_betAmount : Value;
  bet_result : Value;
  bet_won : bool;
  bet_gameData : option GameFields;
  bet_resultData : GameResult;
  bet_timestamp : Z
}.

Record Transaction : Type := mkTransaction {
  tx_id : Id;
  tx_userId : string;
  tx_type : TxType;
  tx_amount : Value;
  tx_iban : JsVal;
  tx_accountName : JsVal;
  tx_status : TxStatus;
  tx_timestamp : Z
}.

Record World : Type := mkWorld {
  users : gmap string User;
  transactions : JsMap Transaction;
  bets : JsMap BetRecord
}.

Record BetBody : Type := mkBetBody {
  game : JsVal;
  betAmount : Value;
  gameData : option GameFields
}.

Record WithdrawBody : Type := mkWithdrawBody {
  amount : Value;
  iban : JsVal;
  accountName : JsVal
}.

Inductive Response : Type :=
  | BetOk (result : GameResult) (bal tBet tWon : Value) (tBets : Z)
  | TxOk (bal : Value) (transaction : Transaction)
  | Failure (status : Z) (message : Message).

Definition is_failure (r : Response) : bool :=
  match r with
  | Failure _ _ => true
  | _ => false
  end.

(** *** Game resolvers (lines 321-379) *)

Definition processNumbersGame (betAmount : Value) (gameData : option GameFields)
    (r : Q) : Exc (option GameResult) :=
  match gameData with
  | None => Throw
  | Some gd =>
      let selectedNumber := selectedNumber gd in
      let winningNumber := (js_floor_mul r 25 + 1)%Z in
      let won := strict_eq_num (inject_Z winningNumber) selectedNumber in
      Ret (bind (if won then mul betAmount (Num 24) else Some (Num 0))
             (fun prize =>
                Some (mkGameResult won prize
                        (NumbersOutcome winningNumber selectedNumber))))
  end.

Definition processSlotsGame (betAmount : Value) (r1 r2 r3 : Q)
    : option GameResult :=
  let n := Z.of_nat (length symbols) in
  let result1 := js_index symbols (js_floor_mul r1 n) in
  let result2 := js_index symbols (js_floor_mul r2 n) in
  let result3 := js_index symbols (js_floor_mul r3 n) in
  let won := bool_decide (result1 = result2) && bool_decide (result2 = result3) in
  bind (if won then mul betAmount (Num 10) else Some (Num 0))
    (fun prize => Some (mkGameResult won prize
                          (SlotsOutcome result1 result2 result3))).

Definition processWheelGame (betAmount : Value) (r : Q) : option GameResult :=
  let prizeIndex := js_floor_mul r (Z.of_nat (length prizes)) in
  let multiplier := js_index prizes prizeIndex in
  let won := match multiplier with Some m => Qltb 0 m | None => false end in
  bind (mul betAmount
          match multiplier with Some m => Num m | None => Undefined end)
    (fun prize => Some (mkGameResult won prize
                          (WheelOutcome multiplier prizeIndex))).

Definition processCoinGame (betAmount : Value) (gameData : option GameFields)
    (r : Q) : Exc (option GameResult) :=
  match gameData with
  | None => Throw
  | Some gd =>
      let choice := choice gd in
      let result := if Qltb r (1 # 2) then heads else tails in
      let won := strict_eq_str choice (side_name result) in
      Ret (bind (if won then mul betAmount (Num 2) else Some (Num 0))
             (fun prize =>
                Some (mkGameResult won prize (CoinOutcome result choice))))
  end.

(** *** Handlers *)

Definition switch_game (env : Env) (b : BetBody)
    : option (Exc (option GameResult) * nat) :=
  if strict_eq_str (game b) "numbers" then
    Some (processNumbersGame (betAmount b) (gameData b) (random env 0), 1%nat)
  else if strict_eq_str (game b) "slots" then
    Some (Ret (processSlotsGame (betAmount b) (random env 0) (random env 1)
                 (random env 2)), 3%nat)
  else if strict_eq_str (game b) "wheel" then
    Some (Ret (processWheelGame (betAmount b) (random env 0)), 1%nat)
  else if strict_eq_str (game b) "coin" then
    Some (processCoinGame (betAmount b) (gameData b) (random env 0), 1%nat)
  else None.

(** Lines 279-287. *)
Definition settle (user : User) (stake : Value) (result : GameResult)
    : option User :=
  bind (sub (balance user) stake) (fun balance1 =>
  bind (add (totalBet user) stake) (fun totalBet1 =>
  let totalBets1 := (totalBets user + 1)%Z in
  if won result then
    bind (add balance1 (prize result)) (fun balance2 =>
    bind (add (totalWon user) (prize result)) (fun totalWon2 =>
    Some (mkUser (id user) balance2 totalBet1 totalWon2 totalBets1
            (isActive user))))
  else
    Some (mkUser (id user) balance1 totalBet1 (totalWon user) totalBets1
            (isActive user)))).

(** POST /api/bets/place (lines 229-319). *)
Definition placeBet (env : Env) (userId : string) (b : BetBody) (w : World)
    : option (Response * World) :=
  match users w !! userId with
  | None => Some (Failure 404 UtilizadorNaoEncontrado, w)
  | Some user =>
      bind (lt (betAmount b) (Num 100)) (fun below =>
      if below then Some (Failure 400 ValorMinimoAposta, w)
      else
        bind (gt (betAmount b) (balance user)) (fun over =>
        if over then Some (Failure 400 SaldoInsuficiente, w)
        else
          match switch_game env b with
          | None => Some (Failure 400 JogoInvalido, w)
          | Some (Throw, _) => Some (Failure 500 ErroProcessarAposta, w)
          | Some (Ret resolved, drawn) =>
              bind resolved (fun result =>
              bind (settle user (betAmount b) result) (fun user' =>
              bind (if won result then Some (prize result)
                    else neg (betAmount b)) (fun net =>
              let betId := mkId (clock env 0) (random env drawn) in
              let betRecord :=
                mkBetRecord betId (id user') (game b) (betAmount b) net
                  (won result) (gameData b) result (clock env 1) in
              Some (BetOk result (balance user') (totalBet user')
                      (totalWon user') (totalBets user'),
                    mkWorld (<[userId := user']> (users w)) (transactions w)
                      (map_set betId betRecord (bets w))))))
          end))
  end.

(** POST /api/transactions/deposit (lines 382-429). *)
Definition deposit (env : Env) (userId : string) (amount : Value) (w : World)
    : option (Response * World) :=
  match users w !! userId with
  | None => Some (Failure 404 UtilizadorNaoEncontrado, w)
  | Some user =>
      bind (lt amount (Num 1000)) (fun below =>
      if below then Some (Failure 400 ValorMinimoDeposito, w)
      else
        bind (add (balance user) amount) (fun balance' =>
        let user' := mkUser (id user) balance' (totalBet user) (totalWon user)
                       (totalBets user) (isActive user) in
        let transactionId := mkId (clock env 0) (random env 0) in
        let transaction :=
          mkTransaction transactionId (id user') deposit_t amount JUndefined
            JUndefined completed (clock env 1) in
        Some (TxOk (balance user') transaction,
              mkWorld (<[userId := user']> (users w))
                (map_set transactionId transaction (transactions w))
                (bets w))))
  end.

(** POST /api/transactions/withdraw (lines 432-495). *)
Definition withdraw (env : Env) (userId : string) (b : WithdrawBody) (w : World)
    : option (Response * World) :=
  match users w !! userId with
  | None => Some (Failure 404 UtilizadorNaoEncontrado, w)
  | Some user =>
      bind (lt (amount b) (Num 1000)) (fun below =>
      if below then Some (Failure 400 ValorMinimoLevantamento, w)
      else
        bind (gt (amount b) (balance user)) (fun over =>
        if over then Some (Failure 400 SaldoInsuficiente, w)
        else if negb (truthy (iban b)) || negb (truthy (accountName b)) then
          Some (Failure 400 IbanNomeObrigatorios, w)
        else
          bind (sub (balance user) (amount b)) (fun balance' =>
          let user' := mkUser (id user) balance' (totalBet user)
                         (totalWon user) (totalBets user) (isActive user) in
          let transactionId := mkId (clock env 0) (random env 0) in
          let transaction :=
            mkTransaction transactionId (id user') withdraw_t (amount b)
              (iban b) (accountName b) pending (clock env 1) in
          Some (TxOk (balance user') transaction,
                mkWorld (<[userId := user']> (users w))
                  (map_set transactionId transaction (transactions w))
                  (bets w)))))
  end.

Inductive Request : Type :=
  | PlaceBet (b : BetBody)
  | Deposit (amount : Value)
  | Withdraw (b : WithdrawBody).

Record Call : Type := mkCall {
  call_env : Env;
  call_userId : string;
  call_req : Request
}.

(** One request of an authenticated session. *)
Definition handle (c : Call) (w : World) : option (Response * World) :=
  match call_req c with
  | PlaceBet b => placeBet (call_env c) (call_userId c) b w
  | Deposit amount => deposit (call_env c) (call_userId c) amount w
  | Withdraw b => withdraw (call_env c) (call_userId c) b w
  end.

(** The store after a sequence of requests. *)
Fixpoint run (cs : list Call) (w : World) : option World :=
  match cs with
  | [] => Some w
  | c :: rest => bind (handle c w) (fun rw => run rest (snd rw))
  end.

End Js.

(** ** Predicates and sample data for the raw handlers *)




Definition js_alice : Js.User :=
  Js.mkUser "alice" (Js.Num 100000) (Js.Num 0) (Js.Num 0) 0 true.

Definition js_fresh_world : Js.World :=
  Js.mkWorld {[ "alice" := js_alice ]} [] [].





(** * Properties *)

(** ** Comparisons *)

Lemma Qltb_lt (a b : Q) : Qltb a b = true <-> a < b.
Proof.
  unfold Qltb. rewrite negb_true_iff, <- not_true_iff_false, Qle_bool_iff.
  split; [apply Qnot_le_lt | apply Qlt_not_le].
Qed.

Lemma Qltb_ge (a b : Q) : Qltb a b = false <-> b <= a.
Proof.
  unfold Qltb. rewrite negb_false_iff. apply Qle_bool_iff.
Qed.

Ltac case_Qltb a b :=
  let H := fresh "Hcmp" in
  destruct (Qltb a b) eqn:H;
  [apply Qltb_lt in H | apply Qltb_ge in H].

(** ** Prizes are never negative *)

Lemma prizes_nonneg (i : Z) (m : Q) : js_index prizes i = Some m -> 0 <= m.
Proof.
  unfold js_index. destruct (i <? 0)%Z; [discriminate |].
  intros H. apply nth_error_In in H. simpl in H.
  repeat (destruct H as [<- | H]; [unfold Qle; simpl; lia |]).
  contradiction.
Qed.

Lemma processWheelGame_prize_nonneg (stake r : Q) :
  0 <= stake -> 0 <= prize (processWheelGame stake r).
Proof.
  intros Hs. unfold processWheelGame. simpl.
  destruct (js_index prizes _) as [m |] eqn:Hm; [| lra].
  apply prizes_nonneg in Hm. now apply Qmult_le_0_compat.
Qed.

Lemma switch_game_prize_nonneg (env : Env) (b : BetBody) (res : GameResult)
    (drawn : nat) :
  0 <= betAmount b ->
  switch_game env b = Some (Ret res, drawn) -> 0 <= prize res.
Proof.
  intros Hs. unfold switch_game, processNumbersGame, processCoinGame,
    processSlotsGame.
  repeat match goal with
         | |- context [if ?c then _ else _] => destruct c
         | |- context [match gameData b with _ => _ end] => destruct (gameData b)
         end;
    intros H; inversion H; subst; clear H; simpl; try lra;
    try (apply Qmult_le_0_compat; lra).
  now apply processWheelGame_prize_nonneg.
Qed.


(** ** The balance invariant *)






Lemma fresh_world_nonneg : balances_nonneg fresh_world.
Proof.
  unfold balances_nonneg, fresh_world. simpl.
  apply map_Forall_singleton. simpl. unfold Qle. simpl. lia.
Qed.

(** ** Failed bets *)

Lemma switch_game_unknown (env : Env) (b : BetBody) :
  known_game (game b) = false -> switch_game env b = None.
Proof.
  unfold known_game, switch_game. intros H.
  repeat (apply orb_false_iff in H; destruct H as [H ?]).
  now repeat match goal with Hs : strict_eq_str _ _ = false |- _ => rewrite Hs; clear Hs end.
Qed.

(** Any failure response of place bet comes with the store it was given. *)
Lemma placeBet_failure_unchanged (env : Env) (userId : string) (b : BetBody)
    (w : World) :
  is_failure (fst (placeBet env userId b w)) = true ->
  snd (placeBet env userId b w) = w.
Proof.
  unfold placeBet.
  destruct (users w !! userId) as [user |]; [| reflexivity].
  destruct (Qltb (betAmount b) 100); [reflexivity |].
  destruct (Qltb (balance user) (betAmount b)); [reflexivity |].
  destruct (switch_game env b) as [[[res |] drawn] |]; try reflexivity.
  simpl. discriminate.
Qed.

(** C3.  A bet whose stake is below 100, or above the account's balance, or
    whose game tag has no case in the switch, is answered with a 400 error
    carrying the matching message, and the store returned is the store
    received: the account's balance and statistics are untouched and the bet
    log has no new record. *)
Theorem placeBet_rejected_no_effect (env : Env) (userId : string) (b : BetBody)
    (w : World) (user : User) :
  users w !! userId = Some user ->
  betAmount b < 100 \/ balance user < betAmount b \/ known_game (game b) = false ->
  exists message : Message,
    placeBet env userId b w = (Failure 400 message, w) /\
    (message = ValorMinimoAposta \/ message = SaldoInsuficiente
     \/ message = JogoInvalido) /\
    users (snd (placeBet env userId b w)) !! userId = Some user /\
    bets (snd (placeBet env userId b w)) = bets w.
Proof.
  intros Hu Hfail. unfold placeBet. rewrite Hu.
  case_Qltb (betAmount b) 100.
  { exists ValorMinimoAposta. simpl. auto. }
  case_Qltb (balance user) (betAmount b).
  { exists SaldoInsuficiente. simpl. auto. }
  destruct Hfail as [H | [H | H]]; [lra | lra |].
  rewrite (switch_game_unknown env b H).
  exists JogoInvalido. simpl. auto 6.
Qed.

Lemma placeBet_rejected_no_effect_witness :
  users fresh_world !! "alice" = Some alice /\
  (betAmount low_stake_bet < 100 \/ balance alice < betAmount low_stake_bet
   \/ known_game (game low_stake_bet) = false) /\
  exists message : Message,
    placeBet sample_env "alice" low_stake_bet fresh_world
      = (Failure 400 message, fresh_world) /\
    (message = ValorMinimoAposta \/ message = SaldoInsuficiente
     \/ message = JogoInvalido) /\
    users (snd (placeBet sample_env "alice" low_stake_bet fresh_world)) !! "alice"
      = Some alice /\
    bets (snd (placeBet sample_env "alice" low_stake_bet fresh_world))
      = bets fresh_world.
Proof.
  assert (Hu : users fresh_world !! "alice" = Some alice) by reflexivity.
  assert (Hf : betAmount low_stake_bet < 100
               \/ balance alice < betAmount low_stake_bet
               \/ known_game (game low_stake_bet) = false).
  { left. simpl. unfold Qlt. simpl. lia. }
  exact (conj Hu (conj Hf
           (placeBet_rejected_no_effect sample_env "alice" low_stake_bet
              fresh_world alice Hu Hf))).
Defined.

(** ** Drawing an index *)



(** [i / n <= r < (i + 1) / n], with the fractions written as [Qmake]. *)
Lemma scaled_interval (r : Q) (n : positive) (i : Z) :
  inject_Z i <= r * inject_Z (Z.pos n) < inject_Z (i + 1)
  <-> i # n <= r < (i + 1) # n.
Proof.
  destruct r as [a d]. unfold Qle, Qlt, Qmult, inject_Z. simpl.
  rewrite !Z.mul_1_r, !Pos.mul_1_r. reflexivity.
Qed.

(** ** The numbers game *)


(** ** The wheel *)




(** ** Whole numbers *)

Lemma is_integer_spec (q : Q) :
  is_integer q = true <-> exists z : Z, q == inject_Z z.
Proof.
  unfold is_integer. rewrite Qeq_bool_iff. split.
  - intros H. exists (Qfloor q). now symmetry.
  - intros [z Hz]. rewrite Hz at 1. now rewrite Qfloor_Z.
Qed.


Lemma is_integer_plus (a b : Q) :
  is_integer a = true -> is_integer b = true -> is_integer (a + b) = true.
Proof.
  rewrite !is_integer_spec. intros [x Hx] [y Hy]. exists (x + y)%Z.
  rewrite Hx, Hy, inject_Z_plus. reflexivity.
Qed.




(** ** Game data is not validated *)



(** After [m.set(k, v)] the value [v] is among the values of [m]. *)
Lemma map_set_In {V : Type} (k : Id) (v : V) (m : JsMap V) :
  In v (map_values (map_set k v m)).
Proof.
  unfold map_values.
  induction m as [| [k' v'] m IH]; simpl; [now left |].
  destruct (Id_eqb k' k); simpl; [now left | now right].
Qed.





(** ** Whole and half units *)















(** ** Withdrawals *)

(** C7, counterexample.  After losing a bet of 99500 the account holds 500;
    a withdrawal of 600 exceeds that balance and is refused with the
    below-minimum message, not with the insufficient-balance message. *)
Lemma small_withdraw_over_balance_below_minimum :
  (exists u : User,
      users poor_world !! "alice" = Some u /\ balance u == 500
      /\ balance u < amount small_withdraw) /\
  withdraw sample_env "alice" small_withdraw poor_world
    = (Failure 400 ValorMinimoLevantamento, poor_world) /\
  fst (withdraw sample_env "alice" small_withdraw poor_world)
    <> Failure 400 SaldoInsuficiente.
Proof.
  split; [| split].
  - eexists. split; [vm_compute; reflexivity |].
    split; vm_compute; reflexivity.
  - vm_compute. reflexivity.
  - vm_compute. discriminate.
Qed.

(** C7, as the code has it.  A withdrawal whose amount exceeds the balance
    is always refused with status 400, and the store is returned as it was:
    the balance is unchanged and the transaction log has no new record.  The
    message is the insufficient-balance one when the amount is at least
    1000; below 1000 the minimum is tested first and its message is sent. *)
Theorem withdraw_over_balance_rejected (env : Env) (userId : string)
    (b : WithdrawBody) (w : World) (user : User) :
  users w !! userId = Some user ->
  balance user < amount b ->
  withdraw env userId b w
    = (Failure 400 (if Qltb (amount b) 1000 then ValorMinimoLevantamento
                    else SaldoInsuficiente), w) /\
  (1000 <= amount b ->
   fst (withdraw env userId b w) = Failure 400 SaldoInsuficiente) /\
  users (snd (withdraw env userId b w)) !! userId = Some user /\
  transactions (snd (withdraw env userId b w)) = transactions w.
Proof.
  intros Hu Hover. apply Qltb_lt in Hover. unfold withdraw. rewrite Hu.
  destruct (Qltb (amount b) 1000) eqn:Hmin.
  - simpl. repeat split; try assumption.
    intros H. apply Qltb_ge in H. congruence.
  - rewrite Hover. simpl. repeat split; assumption.
Qed.

Lemma withdraw_over_balance_rejected_witness :
  users fresh_world !! "alice" = Some alice /\
  balance alice < 200000 /\
  withdraw sample_env "alice" (mkWithdrawBody 200000 (JStr "AO06") (JStr "Alice"))
      fresh_world
    = (Failure 400 SaldoInsuficiente, fresh_world).
Proof.
  assert (Hu : users fresh_world !! "alice" = Some alice) by reflexivity.
  assert (Hover : balance alice < 200000) by (simpl; lra).
  split; [exact Hu |]. split; [exact Hover |].
  exact (proj1 (withdraw_over_balance_rejected sample_env "alice"
                  (mkWithdrawBody 200000 (JStr "AO06") (JStr "Alice"))
                  fresh_world alice Hu Hover)).
Defined.



(** ** Sorting by descending key *)

Section SortDescending.
Context {A : Type} (key : A -> Z).

(** The comparator [(a, b) => key(b) - key(a)] of both history handlers, and
    the order it sorts into: [a] may stand before [b]. *)
Local Abbreviation cmp := (fun a b : A => (key b - key a)%Z).
Local Abbreviation before := (fun a b : A => (key b <= key a)%Z).

Lemma js_insert_perm (x : A) (l : list A) :
  Permutation (js_insert cmp x l) (x :: l).
Proof.
  induction l as [| y l IH]; simpl; [reflexivity |].
  destruct (key y - key x <=? 0)%Z; [reflexivity |].
  rewrite IH. apply perm_swap.
Qed.

Lemma js_sort_perm (l : list A) : Permutation (js_sort cmp l) l.
Proof.
  induction l as [| x l IH]; simpl; [reflexivity |].
  rewrite js_insert_perm. now apply perm_skip.
Qed.

Lemma js_insert_sorted (x : A) (l : list A) :
  StronglySorted before l -> StronglySorted before (js_insert cmp x l).
Proof.
  induction 1 as [| y l Hl IH Hy]; simpl.
  - repeat constructor.
  - destruct (key y - key x <=? 0)%Z eqn:Hc.
    + apply Z.leb_le in Hc.
      constructor; [now constructor |].
      constructor; [lia |].
      eapply Forall_impl; [exact Hy |].
      simpl. intros z Hz. lia.
    + apply Z.leb_gt in Hc.
      constructor; [exact IH |].
      rewrite js_insert_perm. constructor; [lia | exact Hy].
Qed.

Lemma js_sort_sorted (l : list A) : StronglySorted before (js_sort cmp l).
Proof.
  induction l as [| x l IH]; simpl; [constructor |].
  now apply js_insert_sorted.
Qed.

Lemma StronglySorted_firstn (n : nat) (l : list A) :
  StronglySorted before l -> StronglySorted before (firstn n l).
Proof.
  intros H. revert n. induction H as [| y l Hl IH Hy]; intros [| n]; simpl;
    try constructor.
  - apply IH.
  - now apply Forall_take.
Qed.

(** Sorting with the comparator and keeping a prefix gives a list in
    descending key order, all of whose elements come from the input. *)
Lemma sorted_prefix (n : nat) (l : list A) :
  StronglySorted before (firstn n (js_sort cmp l)) /\
  forall x : A, In x (firstn n (js_sort cmp l)) -> In x l.
Proof.
  split.
  - apply StronglySorted_firstn, js_sort_sorted.
  - intros x Hx. apply (Permutation_in x (js_sort_perm l)).
    rewrite <- (firstn_skipn n). apply in_or_app. now left.
Qed.
End SortDescending.

(** ** Bet history *)

(** C8.  Whatever the bet log holds, the bet history of an account has at
    most 50 records, each of them is a record of the log whose owner is the
    requesting account, and their timestamps never increase along the list:
    the most recent comes first. *)
Theorem betHistory_capped_isolated_recent_first (userId : string) (w : World) :
  (length (betHistory userId w) <= 50)%nat /\
  (forall r : BetRecord,
      In r (betHistory userId w) ->
      bet_userId r = userId /\ In r (map_values (bets w))) /\
  StronglySorted (fun a b => (bet_timestamp b <= bet_timestamp a)%Z)
    (betHistory userId w).
Proof.
  unfold betHistory.
  destruct (sorted_prefix bet_timestamp 50
              (filter (fun bet => bet_userId bet = userId) (map_values (bets w))))
    as [Hsorted Hin].
  split; [apply firstn_le_length |]. split; [| exact Hsorted].
  intros r Hr. apply Hin in Hr.
  apply list_elem_of_In, list_elem_of_filter in Hr as [Howner Hlog].
  split; [exact Howner | now apply list_elem_of_In].
Qed.

(** ** Bets served one after the other *)

Lemma placeBet_balance_delta (env : Env) (userId : string) (b : BetBody)
    (w : World) (user : User) :
  users w !! userId = Some user ->
  exists user' : User,
    users (snd (placeBet env userId b w)) !! userId = Some user' /\
    balance user' == balance user + applied_delta (fst (placeBet env userId b w)) b.
Proof.
  intros Hu. unfold placeBet. rewrite Hu.
  destruct (Qltb (betAmount b) 100); [exists user; simpl; split; [exact Hu | ring] |].
  destruct (Qltb (balance user) (betAmount b));
    [exists user; simpl; split; [exact Hu | ring] |].
  destruct (switch_game env b) as [[[res |] drawn] |];
    try (exists user; simpl; split; [exact Hu | ring]).
  eexists. split; [apply lookup_insert_eq |].
  unfold settle. simpl. destruct (won res); simpl; ring.
Qed.

(** In whatever order the bets of an account are served, the balance
    at the end is the balance at the start plus the sum of the deltas
    applied: no debit or credit is lost between two requests. *)
Lemma serve_bets_no_lost_update (userId : string) (bs : list (Env * BetBody))
    (w : World) (user : User) :
  users w !! userId = Some user ->
  exists user' : User,
    users (snd (serve_bets userId bs w)) !! userId = Some user' /\
    balance user' == balance user + fst (serve_bets userId bs w).
Proof.
  revert w user. induction bs as [| [env b] bs IH]; intros w user Hu; simpl.
  - exists user. split; [exact Hu | ring].
  - destruct (placeBet_balance_delta env userId b w user Hu) as (u1 & Hu1 & Hb1).
    destruct (placeBet env userId b w) as [resp w1]. simpl in Hu1, Hb1.
    destruct (IH w1 u1 Hu1) as (u2 & Hu2 & Hb2).
    destruct (serve_bets userId bs w1) as [total w2]. simpl in *.
    exists u2. split; [exact Hu2 |]. rewrite Hb2, Hb1. ring.
Qed.

(** * Further properties of the handlers *)

(** ** Which requests are accepted *)

(** X1.  Whatever the request and the session, a response that is an error
    comes with the store untouched: no handler leaves a partial effect
    behind a refusal. *)
Theorem handle_failure_unchanged (env : Env) (session : option string)
    (req : Request) (w : World) :
  is_failure (fst (handle env session req w)) = true ->
  snd (handle env session req w) = w.
Proof.
  unfold handle.
  destruct (isAuthenticated session) as [userId |]; [| reflexivity].
  destruct req as [b | amount | b |]; [| | | reflexivity].
  - apply placeBet_failure_unchanged.
  - unfold deposit.
    destruct (users w !! userId) as [user |]; [| reflexivity].
    destruct (Qltb amount 1000); [reflexivity | simpl; discriminate].
  - unfold withdraw.
    destruct (users w !! userId) as [user |]; [| reflexivity].
    destruct (Qltb (amount b) 1000); [reflexivity |].
    destruct (Qltb (balance user) (amount b)); [reflexivity |].
    destruct (negb (truthy (iban b)) || negb (truthy (accountName b)));
      [reflexivity | simpl; discriminate].
Qed.

Lemma handle_failure_unchanged_witness :
  is_failure (fst (handle sample_env (Some "alice") (PlaceBet low_stake_bet)
                     fresh_world)) = true /\
  snd (handle sample_env (Some "alice") (PlaceBet low_stake_bet) fresh_world)
    = fresh_world.
Proof.
  assert (H : is_failure (fst (handle sample_env (Some "alice")
                                 (PlaceBet low_stake_bet) fresh_world)) = true)
    by reflexivity.
  exact (conj H (handle_failure_unchanged sample_env (Some "alice")
                   (PlaceBet low_stake_bet) fresh_world H)).
Defined.

(** X2.  A request whose session carries no user id, or the empty string
    as user id, is refused with 401 whatever it asks.  A request of a
    session whose user is not in the store is refused with 404 by place bet,
    deposit and withdraw, while bet history still answers with a list.  In
    all these cases the store is left as it was. *)
Theorem no_account_no_effect (env : Env) (session : option string)
    (req : Request) (w : World) :
  session = None \/ session = Some ""
  \/ (exists userId : string, session = Some userId /\ users w !! userId = None) ->
  snd (handle env session req w) = w /\
  (session = None \/ session = Some "" ->
   fst (handle env session req w) = Failure 401 NaoAutenticado) /\
  (forall userId : string,
      session = Some userId -> userId <> "" -> users w !! userId = None ->
      (req <> BetHistory ->
       fst (handle env session req w) = Failure 404 UtilizadorNaoEncontrado) /\
      (req = BetHistory ->
       fst (handle env session req w) = BetsOk (betHistory userId w))).
Proof.
  intros Hcase.
  assert (H404 : forall userId : string,
             session = Some userId -> userId <> "" -> users w !! userId = None ->
             snd (handle env session req w) = w /\
             (req <> BetHistory ->
              fst (handle env session req w) = Failure 404 UtilizadorNaoEncontrado) /\
             (req = BetHistory ->
              fst (handle env session req w) = BetsOk (betHistory userId w))).
  { intros userId -> Hne Hu. unfold handle, isAuthenticated.
    destruct (String.eqb_spec userId "") as [-> | _]; [contradiction |].
    unfold placeBet, deposit, withdraw.
    destruct req; rewrite ?Hu; simpl;
      (split; [reflexivity |]); split; intros H; congruence. }
  assert (H401 : session = None \/ session = Some "" ->
                 handle env session req w = (Failure 401 NaoAutenticado, w)).
  { intros [-> | ->]; reflexivity. }
  split; [| split].
  - destruct Hcase as [H | [H | (userId & Hs & Hu)]];
      try (rewrite H401 by auto; reflexivity).
    destruct (String.eqb_spec userId "") as [-> | Hne].
    + rewrite H401 by auto. reflexivity.
    + exact (proj1 (H404 userId Hs Hne Hu)).
  - intros H. now rewrite H401.
  - intros userId Hs Hne Hu. exact (proj2 (H404 userId Hs Hne Hu)).
Qed.

Lemma no_account_no_effect_witness :
  (Some "" = None \/ Some "" = Some ""
   \/ (exists userId : string,
          Some "" = Some userId /\ users fresh_world !! userId = None)) /\
  snd (handle sample_env (Some "") (Deposit 5000) fresh_world) = fresh_world /\
  fst (handle sample_env (Some "") (Deposit 5000) fresh_world)
    = Failure 401 NaoAutenticado.
Proof.
  assert (H : Some "" = None \/ Some "" = Some ""
              \/ (exists userId : string,
                     Some "" = Some userId /\ users fresh_world !! userId = None)).
  { right. left. reflexivity. }
  split; [exact H |].
  destruct (no_account_no_effect sample_env (Some "") (Deposit 5000)
              fresh_world H) as (Hw & H401 & _).
  split; [exact Hw | apply H401; now right].
Defined.

Lemma switch_game_known (env : Env) (b : BetBody) :
  known_game (game b) = true ->
  exists (r : Exc GameResult) (drawn : nat), switch_game env b = Some (r, drawn).
Proof.
  unfold known_game, switch_game. intros H.
  destruct (strict_eq_str (game b) "numbers"); [eauto |].
  destruct (strict_eq_str (game b) "slots"); [eauto |].
  destruct (strict_eq_str (game b) "wheel"); [eauto |].
  destruct (strict_eq_str (game b) "coin"); [eauto | discriminate].
Qed.

(** The resolver throws exactly when the game reads [gameData] and there is
    none. *)
Lemma switch_game_throws (env : Env) (b : BetBody) :
  known_game (game b) = true ->
  ((exists drawn : nat, switch_game env b = Some (Throw, drawn)) <->
   needs_gameData (game b) = true /\ gameData b = None).
Proof.
  unfold known_game, needs_gameData, switch_game, processNumbersGame,
    processCoinGame.
  destruct (strict_eq_str (game b) "numbers") eqn:Hn; simpl.
  { intros _. destruct (gameData b); split.
    - intros [d H]. discriminate.
    - intros [_ H]. discriminate.
    - intros _. now split.
    - intros _. now exists 1%nat. }
  destruct (strict_eq_str (game b) "slots") eqn:Hs; simpl.
  { intros _. split; [intros [d H]; discriminate |].
    intros [Hc Hg]. revert Hc.
    destruct (game b); simpl in *; try discriminate.
    destruct (String.eqb_spec s "slots") as [-> |]; discriminate. }
  destruct (strict_eq_str (game b) "wheel") eqn:Hw; simpl.
  { intros _. split; [intros [d H]; discriminate |].
    intros [Hc Hg]. revert Hc.
    destruct (game b); simpl in *; try discriminate.
    destruct (String.eqb_spec s "wheel") as [-> |]; discriminate. }
  destruct (strict_eq_str (game b) "coin") eqn:Hc; [| discriminate].
  intros _. destruct (gameData b); split.
  - intros [d H]. discriminate.
  - intros [_ H]. discriminate.
  - intros _. now split.
  - intros _. now exists 1%nat.
Qed.

(** ** What a request can change in the user store *)

(** A request either leaves the user store as it is or replaces the object
    of the session's user by one with the same identity, and statistics that
    are no smaller. *)
Lemma step_users_shape (w : World) (c : Call) :
  users (step w c) = users w \/
  exists (userId : string) (user user' : User),
    isAuthenticated (call_session c) = Some userId /\
    users w !! userId = Some user /\
    users (step w c) = <[userId := user']> (users w) /\
    uid user' = uid user /\ isActive user' = isActive user /\
    (totalBets user <= totalBets user')%Z /\
    totalBet user <= totalBet user' /\ totalWon user <= totalWon user'.
Proof.
  unfold step, handle.
  destruct (isAuthenticated (call_session c)) as [userId |] eqn:Hs;
    [| now left].
  destruct (call_req c) as [b | amt | b |]; [| | | now left].
  - unfold placeBet.
    destruct (users w !! userId) as [user |] eqn:Hu; [| now left].
    case_Qltb (betAmount b) 100; [now left |].
    case_Qltb (balance user) (betAmount b); [now left |].
    destruct (switch_game (call_env c) b) as [[[res |] drawn] |] eqn:Hg;
      try (now left).
    right. exists userId, user, (settle user (betAmount b) res).
    assert (Hp : 0 <= prize res).
    { apply (switch_game_prize_nonneg (call_env c) b res drawn);
        [lra | exact Hg]. }
    repeat split; try reflexivity; try exact Hu;
      unfold settle; destruct (won res); simpl; try reflexivity; try lia; lra.
  - unfold deposit.
    destruct (users w !! userId) as [user |] eqn:Hu; [| now left].
    destruct (Qltb amt 1000); [now left |].
    right. eexists userId, user, _.
    repeat split; try reflexivity; try exact Hu; simpl; try lia; lra.
  - unfold withdraw.
    destruct (users w !! userId) as [user |] eqn:Hu; [| now left].
    destruct (Qltb (amount b) 1000); [now left |].
    destruct (Qltb (balance user) (amount b)); [now left |].
    destruct (negb (truthy (iban b)) || negb (truthy (accountName b)));
      [now left |].
    right. eexists userId, user, _.
    repeat split; try reflexivity; try exact Hu; simpl; try lia; lra.
Qed.

(** X6.  Requests sent by other sessions never touch an account: after any
    sequence of requests none of which is authenticated as [other], the
    entry of [other] in the user store is what it was. *)
Theorem other_accounts_untouched (other : string) (cs : list Call) (w : World) :
  Forall (not_sent_by other) cs ->
  users (run cs w) !! other = users w !! other.
Proof.
  intros H. revert w. induction H as [| c cs Hc Hcs IH]; intros w; simpl;
    [reflexivity |].
  rewrite IH.
  destruct (step_users_shape w c) as [-> | (userId & user & user' & Hs & _ & -> & _)];
    [reflexivity |].
  apply lookup_insert_ne. intros ->. now apply Hc.
Qed.

Lemma other_accounts_untouched_witness :
  Forall (not_sent_by "bob") sample_calls /\
  users two_accounts !! "bob" = Some bob /\
  users (run sample_calls two_accounts) !! "alice" <> users two_accounts !! "alice" /\
  users (run sample_calls two_accounts) !! "bob" = Some bob.
Proof.
  assert (H : Forall (not_sent_by "bob") sample_calls).
  { repeat (constructor; [unfold not_sent_by; simpl; discriminate |]).
    constructor. }
  split; [exact H |]. split; [reflexivity |]. split; [vm_compute; discriminate |].
  exact (other_accounts_untouched "bob" sample_calls two_accounts H).
Defined.

Lemma run_users_dom (cs : list Call) (w : World) :
  dom (users (run cs w)) = dom (users w).
Proof.
  revert w. induction cs as [| c cs IH]; intros w; simpl; [reflexivity |].
  rewrite IH.
  destruct (step_users_shape w c) as [-> | (userId & user & user' & _ & Hu & -> & _)];
    [reflexivity |].
  apply dom_insert_lookup_L. now rewrite Hu.
Qed.

(** X7.  No ledger request creates or removes an account: after any sequence
    of requests the user store has exactly the keys it had. *)
Theorem accounts_never_created_or_removed (cs : list Call) (w : World) :
  dom (users (run cs w)) = dom (users w).
Proof. exact (run_users_dom cs w). Qed.

Lemma run_account_kept (cs : list Call) (w : World)
    (userId : string) (u : User) :
  users w !! userId = Some u ->
  exists u' : User,
    users (run cs w) !! userId = Some u' /\
    uid u' = uid u /\ isActive u' = isActive u /\
    (totalBets u <= totalBets u')%Z /\
    totalBet u <= totalBet u' /\ totalWon u <= totalWon u'.
Proof.
  revert w u. induction cs as [| c cs IH]; intros w u Hu; simpl.
  - exists u. repeat split; try assumption; try reflexivity; try lia; lra.
  - assert (H1 : exists u1 : User,
               users (step w c) !! userId = Some u1 /\
               uid u1 = uid u /\ isActive u1 = isActive u /\
               (totalBets u <= totalBets u1)%Z /\
               totalBet u <= totalBet u1 /\ totalWon u <= totalWon u1).
    { destruct (step_users_shape w c)
        as [-> | (k & user & user' & _ & Hk & -> & Hid & Hact & Hn & Hb & Hw)].
      - exists u. repeat split; try assumption; try reflexivity; try lia; lra.
      - destruct (decide (k = userId)) as [-> | Hne].
        + rewrite Hu in Hk. inversion Hk; subst user.
          exists user'. rewrite lookup_insert_eq. now repeat split.
        + exists u. rewrite lookup_insert_ne by assumption.
          repeat split; try assumption; try reflexivity; try lia; lra. }
    destruct H1 as (u1 & Hu1 & Hid1 & Hact1 & Hn1 & Hb1 & Hw1).
    destruct (IH _ _ Hu1) as (u' & Hu' & Hid & Hact & Hn & Hb & Hw).
    exists u'. repeat split; try assumption; try congruence; try lia; lra.
Qed.



(** X9.  Every user object stays stored under its own [id]: if each key of
    the user store is the [id] of its object, this is still so after any
    sequence of requests. *)
Theorem keys_match_preserved (cs : list Call) (w : World) :
  keys_match w -> keys_match (run cs w).
Proof.
  intros Hw k u' Hu'.
  assert (Hdom : is_Some (users w !! k)).
  { apply elem_of_dom. rewrite <- (run_users_dom cs w).
    apply elem_of_dom. now rewrite Hu'. }
  destruct Hdom as [u Hu].
  destruct (run_account_kept cs w k u Hu) as (u2 & Hu2 & Hid & _).
  rewrite Hu' in Hu2. inversion Hu2; subst u2.
  rewrite Hid. exact (Hw k u Hu).
Qed.

Lemma keys_match_preserved_witness :
  keys_match fresh_world /\ keys_match (run sample_calls fresh_world).
Proof.
  assert (H : keys_match fresh_world).
  { apply map_Forall_singleton. reflexivity. }
  exact (conj H (keys_match_preserved sample_calls fresh_world H)).
Defined.

(** ** What a bet can cost and pay *)





(** ** Responses and the store agree *)

(** X12.  What a success response reports is what is stored: after a
    resolved bet the balance query returns the balance and the three
    statistics of the response, and after an accepted deposit or withdrawal
    it returns the balance of the response. *)
Theorem response_reports_stored_state (env : Env) (session : option string)
    (req : Request) (w : World) (userId : string) :
  isAuthenticated session = Some userId ->
  (forall (res : GameResult) (bal tb tw : Q) (n : Z),
      fst (handle env session req w) = BetOk res bal tb tw n ->
      getBalance userId (snd (handle env session req w))
        = BalanceOk bal tb tw n) /\
  (forall (bal : Q) (tx : Transaction),
      fst (handle env session req w) = TxOk bal tx ->
      exists (tb tw : Q) (n : Z),
        getBalance userId (snd (handle env session req w))
          = BalanceOk bal tb tw n).
Proof.
  intros Hs. unfold handle, getBalance. rewrite Hs.
  destruct req as [b | amt | b |]; simpl.
  - unfold placeBet.
    destruct (users w !! userId) as [user |] eqn:Hu;
      [| split; intros; discriminate].
    destruct (Qltb (betAmount b) 100); [split; intros; discriminate |].
    destruct (Qltb (balance user) (betAmount b));
      [split; intros; discriminate |].
    destruct (switch_game env b) as [[[res |] drawn] |];
      try (split; intros; discriminate).
    simpl. rewrite lookup_insert_eq. split; [| intros; discriminate].
    intros res' bal tb tw n H. inversion H; subst. reflexivity.
  - unfold deposit.
    destruct (users w !! userId) as [user |] eqn:Hu;
      [| split; intros; discriminate].
    destruct (Qltb amt 1000); [split; intros; discriminate |].
    simpl. rewrite lookup_insert_eq. split; [intros; discriminate |].
    intros bal tx H. inversion H; subst. simpl. eauto.
  - unfold withdraw.
    destruct (users w !! userId) as [user |] eqn:Hu;
      [| split; intros; discriminate].
    destruct (Qltb (amount b) 1000); [split; intros; discriminate |].
    destruct (Qltb (balance user) (amount b));
      [split; intros; discriminate |].
    destruct (negb (truthy (iban b)) || negb (truthy (accountName b)));
      [split; intros; discriminate |].
    simpl. rewrite lookup_insert_eq. split; [intros; discriminate |].
    intros bal tx H. inversion H; subst. simpl. eauto.
  - split; intros; discriminate.
Qed.

Lemma response_reports_stored_state_witness :
  isAuthenticated (Some "alice") = Some "alice" /\
  exists (tb tw : Q) (n : Z),
    getBalance "alice" (snd (handle sample_env (Some "alice") (Deposit 1000)
                               fresh_world))
      = BalanceOk (100000 + 1000) tb tw n.
Proof.
  assert (Hs : isAuthenticated (Some "alice") = Some "alice") by reflexivity.
  split; [exact Hs |].
  refine (proj2 (response_reports_stored_state sample_env (Some "alice")
                   (Deposit 1000) fresh_world "alice" Hs) (100000 + 1000) _ _).
  reflexivity.
Defined.

(** ** The slot machine and the coin *)





(** ** More on sorting *)

Section SortStable.
Context {A : Type} (key : A -> Z).

Local Abbreviation cmp := (fun a b : A => (key b - key a)%Z).
Local Abbreviation before := (fun a b : A => (key b <= key a)%Z).

Lemma js_insert_same_key (k : Z) (x : A) (l : list A) :
  filter (fun y => key y = k) (js_insert cmp x l)
  = filter (fun y => key y = k) (x :: l).
Proof.
  induction l as [| y l IH]; simpl; [reflexivity |].
  destruct (key y - key x <=? 0)%Z eqn:Hc; [reflexivity |].
  apply Z.leb_gt in Hc.
  rewrite (filter_cons _ y), IH, !(filter_cons _ x), (filter_cons _ y).
  destruct (decide (key y = k)) as [Hy | Hy];
    destruct (decide (key x = k)) as [Hx | Hx]; try reflexivity.
  lia.
Qed.

(** The sort is stable: elements with the same key keep their order. *)
Lemma js_sort_same_key (k : Z) (l : list A) :
  filter (fun y => key y = k) (js_sort cmp l) = filter (fun y => key y = k) l.
Proof.
  induction l as [| x l IH]; simpl; [reflexivity |].
  rewrite js_insert_same_key, !(filter_cons _ x), IH. reflexivity.
Qed.

(** In a sorted list cut in two, nothing in the second part is more recent
    than anything in the first. *)
Lemma sorted_split (l1 l2 : list A) :
  StronglySorted before (l1 ++ l2) ->
  forall a b : A, In a l1 -> In b l2 -> (key b <= key a)%Z.
Proof.
  induction l1 as [| x l1 IH]; simpl; intros Hs a b Ha Hb; [contradiction |].
  apply StronglySorted_inv in Hs as [Hs Hx].
  destruct Ha as [<- | Ha].
  - apply (proj1 (List.Forall_forall _ _) Hx). apply in_or_app. now right.
  - now apply (IH Hs).
Qed.

(** A sorted list that contains an element more recent than all the others
    starts with it. *)
Lemma sorted_head (x : A) (l : list A) :
  StronglySorted before l -> In x l ->
  (forall y : A, In y l -> y = x \/ (key y < key x)%Z) ->
  head l = Some x.
Proof.
  intros Hs Hx Hmax. destruct l as [| h l]; [contradiction |]. simpl.
  apply StronglySorted_inv in Hs as [_ Hh].
  destruct (Hmax h (or_introl eq_refl)) as [-> | Hlt]; [reflexivity |].
  destruct Hx as [-> | Hx]; [reflexivity |].
  pose proof (proj1 (List.Forall_forall _ _) Hh x Hx). simpl in *. lia.
Qed.
End SortStable.

(** ** The two histories *)

(** X17.  The transaction history of an account is a rearrangement of
    exactly the records of the transaction log owned by that account, none
    left out and none added, whatever their number, with timestamps that
    never increase along the list. *)
Theorem transactionHistory_complete_recent_first (userId : string) (w : World) :
  Permutation (transactionHistory userId w)
    (filter (fun t => tx_userId t = userId) (map_values (transactions w))) /\
  (forall t : Transaction,
      In t (transactionHistory userId w) <->
      tx_userId t = userId /\ In t (map_values (transactions w))) /\
  StronglySorted (fun a b => (tx_timestamp b <= tx_timestamp a)%Z)
    (transactionHistory userId w).
Proof.
  unfold transactionHistory.
  pose proof (js_sort_perm tx_timestamp
                (filter (fun t => tx_userId t = userId)
                   (map_values (transactions w)))) as Hperm.
  split; [exact Hperm |]. split; [| apply js_sort_sorted].
  intros t. rewrite <- !list_elem_of_In, Hperm, list_elem_of_filter.
  reflexivity.
Qed.

(** X18.  The bet history keeps the most recent records: together with the
    records it leaves out it is a rearrangement of the account's records in
    the log, no record left out is more recent than a record returned, and
    nothing is left out when the account has at most 50 records. *)
Theorem betHistory_keeps_most_recent (userId : string) (w : World) :
  exists older : list BetRecord,
    Permutation (betHistory userId w ++ older)
      (filter (fun bet => bet_userId bet = userId) (map_values (bets w))) /\
    (forall a b : BetRecord,
        In a (betHistory userId w) -> In b older ->
        (bet_timestamp b <= bet_timestamp a)%Z) /\
    ((length (filter (fun bet => bet_userId bet = userId)
                (map_values (bets w))) <= 50)%nat -> older = []).
Proof.
  unfold betHistory.
  set (mine := filter (fun bet => bet_userId bet = userId) (map_values (bets w))).
  set (sorted := js_sort (fun a b => (bet_timestamp b - bet_timestamp a)%Z) mine).
  exists (drop 50 sorted). split; [| split].
  - change (firstn 50 sorted) with (take 50 sorted).
    rewrite take_drop. apply js_sort_perm.
  - apply (sorted_split bet_timestamp).
    change (firstn 50 sorted) with (take 50 sorted).
    rewrite take_drop. apply js_sort_sorted.
  - intros Hlen. apply drop_ge.
    pose proof (Permutation_length (js_sort_perm bet_timestamp mine)) as Hl.
    fold sorted in Hl. rewrite Hl. exact Hlen.
Qed.

(** ** The logs *)

Lemma map_set_fresh {V : Type} (k : Id) (v : V) (m : JsMap V) :
  fresh_id k m = true -> map_set k v m = m ++ [(k, v)].
Proof.
  induction m as [| [k' v'] m IH]; simpl; [reflexivity |].
  intros H. apply andb_true_iff in H as [Hk Hm].
  apply negb_true_iff in Hk. rewrite Hk, (IH Hm). reflexivity.
Qed.

(** [set] keeps every key in its place and adds at most one, at the end. *)
Lemma map_set_keys {V : Type} (k : Id) (v : V) (m : JsMap V) :
  map fst (map_set k v m)
  = map fst m ++ (if fresh_id k m then [k] else []).
Proof.
  induction m as [| [k' v'] m IH]; simpl; [reflexivity |].
  destruct (Id_eqb k' k); simpl; [now rewrite app_nil_r |].
  now rewrite IH.
Qed.

Lemma map_set_In_inv {V : Type} (k : Id) (v x : V) (m : JsMap V) :
  In x (map_values (map_set k v m)) -> x = v \/ In x (map_values m).
Proof.
  unfold map_values. induction m as [| [k' v'] m IH]; simpl.
  - intros [<- | []]. now left.
  - destruct (Id_eqb k' k); simpl.
    + intros [<- | H]; [now left | right; now right].
    + intros [<- | H]; [right; now left |].
      destruct (IH H) as [-> | H']; [now left | right; now right].
Qed.

(** What a request does to the keys of the two logs: each keeps its keys in
    place and gains at most one at its end. *)
Lemma step_log_keys (w : World) (c : Call) :
  (exists extra : list Id,
      map fst (bets (step w c)) = map fst (bets w) ++ extra) /\
  (exists extra : list Id,
      map fst (transactions (step w c)) = map fst (transactions w) ++ extra).
Proof.
  assert (Hsame : forall l : list Id, exists extra : list Id, l = l ++ extra).
  { intros l. exists []. now rewrite app_nil_r. }
  unfold step, handle.
  destruct (isAuthenticated (call_session c)) as [userId |];
    [| split; apply Hsame].
  destruct (call_req c) as [b | amt | b |]; [| | | split; apply Hsame].
  - unfold placeBet.
    destruct (users w !! userId) as [user |]; [| split; apply Hsame].
    destruct (Qltb (betAmount b) 100); [split; apply Hsame |].
    destruct (Qltb (balance user) (betAmount b)); [split; apply Hsame |].
    destruct (switch_game (call_env c) b) as [[[res |] drawn] |];
      try (split; apply Hsame).
    simpl. split; [| apply Hsame]. rewrite map_set_keys. eauto.
  - unfold deposit.
    destruct (users w !! userId) as [user |]; [| split; apply Hsame].
    destruct (Qltb amt 1000); [split; apply Hsame |].
    simpl. split; [apply Hsame |]. rewrite map_set_keys. eauto.
  - unfold withdraw.
    destruct (users w !! userId) as [user |]; [| split; apply Hsame].
    destruct (Qltb (amount b) 1000); [split; apply Hsame |].
    destruct (Qltb (balance user) (amount b)); [split; apply Hsame |].
    destruct (negb (truthy (iban b)) || negb (truthy (accountName b)));
      [split; apply Hsame |].
    simpl. split; [apply Hsame |]. rewrite map_set_keys. eauto.
Qed.

(** X19.  Both logs only grow at their end: after any sequence of requests
    the identifiers of the bet log are those it had, in the same places,
    followed by new ones, and likewise for the transaction log; no entry is
    ever removed or moved. *)
Theorem logs_only_grow (cs : list Call) (w : World) :
  (exists extra : list Id,
      map fst (bets (run cs w)) = map fst (bets w) ++ extra) /\
  (exists extra : list Id,
      map fst (transactions (run cs w)) = map fst (transactions w) ++ extra).
Proof.
  revert w. induction cs as [| c cs IH]; intros w; simpl.
  - split; exists []; now rewrite app_nil_r.
  - destruct (IH (step w c)) as [[e1 H1] [e2 H2]].
    destruct (step_log_keys w c) as [[d1 D1] [d2 D2]].
    split.
    + exists (d1 ++ e1). now rewrite H1, D1, app_assoc.
    + exists (d2 ++ e2). now rewrite H2, D2, app_assoc.
Qed.

(** X20.  An accepted bet whose identifier is not yet in the bet log appends
    exactly one record to it and leaves the transaction log alone; the
    record carries the user's id, the game, the stake, the result of the
    resolver, the prize as net result when won and minus the stake when
    lost, and the time of the request. *)
Theorem accepted_bet_appends_record (env : Env) (userId : string) (b : BetBody)
    (w : World) (user : User) (res : GameResult) (drawn : nat) :
  users w !! userId = Some user ->
  100 <= betAmount b <= balance user ->
  switch_game env b = Some (Ret res, drawn) ->
  fresh_id (bet_id_of env drawn) (bets w) = true ->
  exists record : BetRecord,
    bets (snd (placeBet env userId b w))
      = bets w ++ [(bet_id_of env drawn, record)] /\
    transactions (snd (placeBet env userId b w)) = transactions w /\
    bet_id record = bet_id_of env drawn /\
    bet_userId record = uid user /\ bet_game record = game b /\
    bet_betAmount record = betAmount b /\ bet_resultData record = res /\
    bet_won record = won res /\
    bet_result record = (if won res then prize res else - betAmount b) /\
    bet_timestamp record = clock env 1.
Proof.
  intros Hu [Hmin Hbal] Hg Hfresh. apply Qltb_ge in Hmin, Hbal.
  unfold placeBet. rewrite Hu, Hmin, Hbal, Hg. simpl.
  eexists. split; [apply (map_set_fresh _ _ _ Hfresh) |].
  split; [reflexivity |]. split; [reflexivity |].
  split; [unfold settle; destruct (won res); reflexivity |].
  repeat split; reflexivity.
Qed.

Lemma accepted_bet_appends_record_witness :
  users one_bet_world !! "alice" = Some alice_after_bet /\
  100 <= betAmount wheel_100 <= balance alice_after_bet /\
  switch_game later_env wheel_100
    = Some (Ret (processWheelGame 100 (3 # 4)), 1%nat) /\
  fresh_id (bet_id_of later_env 1) (bets one_bet_world) = true /\
  exists record : BetRecord,
    bets (snd (placeBet later_env "alice" wheel_100 one_bet_world))
      = bets one_bet_world ++ [(bet_id_of later_env 1, record)] /\
    bet_timestamp record = clock later_env 1.
Proof.
  assert (Hu : users one_bet_world !! "alice" = Some alice_after_bet)
    by reflexivity.
  assert (Hs : 100 <= betAmount wheel_100 <= balance alice_after_bet).
  { split; vm_compute; discriminate. }
  assert (Hg : switch_game later_env wheel_100
               = Some (Ret (processWheelGame 100 (3 # 4)), 1%nat))
    by reflexivity.
  assert (Hf : fresh_id (bet_id_of later_env 1) (bets one_bet_world) = true)
    by reflexivity.
  split; [exact Hu |]. split; [exact Hs |]. split; [exact Hg |].
  split; [exact Hf |].
  destruct (accepted_bet_appends_record later_env "alice" wheel_100
              one_bet_world alice_after_bet _ 1%nat Hu Hs Hg Hf)
    as (record & Hlog & _ & _ & _ & _ & _ & _ & _ & _ & Htime).
  exists record. split; [exact Hlog | exact Htime].
Defined.

(** X21.  A bet just placed is the first entry of the account's bet history
    whenever the request's time is later than the timestamps of all the
    account's earlier records: for an account stored under its own id, the
    history after an accepted bet starts with a record of that stake, that
    user and that time. *)
Theorem placed_bet_heads_history (env : Env) (userId : string) (b : BetBody)
    (w : World) (user : User) :
  users w !! userId = Some user ->
  uid user = userId ->
  is_failure (fst (placeBet env userId b w)) = false ->
  (forall r : BetRecord,
      In r (map_values (bets w)) -> bet_userId r = userId ->
      (bet_timestamp r < clock env 1)%Z) ->
  exists record : BetRecord,
    head (betHistory userId (snd (placeBet env userId b w))) = Some record /\
    bet_userId record = userId /\
    bet_betAmount record = betAmount b /\
    bet_game record = game b /\
    bet_timestamp record = clock env 1.
Proof.
  intros Hu Hid. unfold placeBet. rewrite Hu.
  destruct (Qltb (betAmount b) 100); [discriminate |].
  destruct (Qltb (balance user) (betAmount b)); [discriminate |].
  destruct (switch_game env b) as [[[res |] drawn] |]; try discriminate.
  intros _ Hlater. cbv zeta.
  set (user' := settle user (betAmount b) res).
  set (record := mkBetRecord _ _ _ _ _ _ _ _ _).
  assert (Huid : bet_userId record = userId).
  { unfold record, user', settle. simpl. destruct (won res); exact Hid. }
  exists record. unfold betHistory. simpl bets.
  set (log := map_values (map_set _ record (bets w))).
  set (mine := filter (fun bet => bet_userId bet = userId) log).
  assert (Hin : In record mine).
  { apply list_elem_of_In, list_elem_of_filter. split; [exact Huid |].
    apply list_elem_of_In, map_set_In. }
  assert (Hmax : forall y : BetRecord,
             In y (js_sort (fun a0 b0 => (bet_timestamp b0 - bet_timestamp a0)%Z) mine) ->
             y = record \/ (bet_timestamp y < bet_timestamp record)%Z).
  { intros y Hy.
    apply (Permutation_in y (js_sort_perm bet_timestamp mine)) in Hy.
    apply list_elem_of_In, list_elem_of_filter in Hy as [Hown Hlog].
    apply list_elem_of_In, map_set_In_inv in Hlog as [-> | Hold];
      [now left | right].
    now apply Hlater. }
  pose proof (sorted_head bet_timestamp record _
                (js_sort_sorted bet_timestamp mine)
                (Permutation_in record
                   (Permutation_sym (js_sort_perm bet_timestamp mine)) Hin)
                Hmax) as Hhead.
  split; [| now repeat split].
  destruct (js_sort _ mine) as [| h rest]; [discriminate |].
  exact Hhead.
Qed.

Lemma placed_bet_heads_history_witness :
  users one_bet_world !! "alice" = Some alice_after_bet /\
  uid alice_after_bet = "alice" /\
  is_failure (fst (placeBet later_env "alice" wheel_100 one_bet_world))
    = false /\
  (forall r : BetRecord,
      In r (map_values (bets one_bet_world)) -> bet_userId r = "alice" ->
      (bet_timestamp r < clock later_env 1)%Z) /\
  exists record : BetRecord,
    head (betHistory "alice"
            (snd (placeBet later_env "alice" wheel_100 one_bet_world)))
      = Some record /\
    bet_userId record = "alice" /\
    bet_betAmount record = betAmount wheel_100 /\
    bet_game record = game wheel_100 /\
    bet_timestamp record = clock later_env 1.
Proof.
  assert (Hu : users one_bet_world !! "alice" = Some alice_after_bet)
    by reflexivity.
  assert (Hid : uid alice_after_bet = "alice") by reflexivity.
  assert (Hs : is_failure (fst (placeBet later_env "alice" wheel_100
                                  one_bet_world)) = false) by reflexivity.
  assert (Hl : forall r : BetRecord,
             In r (map_values (bets one_bet_world)) -> bet_userId r = "alice" ->
             (bet_timestamp r < clock later_env 1)%Z).
  { intros r [<- | []] _. reflexivity. }
  exact (conj Hu (conj Hid (conj Hs (conj Hl
           (placed_bet_heads_history later_env "alice" wheel_100
              one_bet_world alice_after_bet Hu Hid Hs Hl))))).
Defined.

(** X22.  A bet placed by one account never shows in the history of
    another: when the user object is stored under its own id and the new
    identifier is not yet in the bet log, the bet history of every other
    account is, after the bet, exactly what it was before. *)
Theorem other_history_unaffected (env : Env) (userId other : string)
    (b : BetBody) (w : World) (user : User) (res : GameResult) (drawn : nat) :
  users w !! userId = Some user ->
  uid user = userId ->
  userId <> other ->
  switch_game env b = Some (Ret res, drawn) ->
  fresh_id (bet_id_of env drawn) (bets w) = true ->
  betHistory other (snd (placeBet env userId b w)) = betHistory other w.
Proof.
  intros Hu Hid Hne Hg Hfresh. unfold placeBet. rewrite Hu.
  destruct (Qltb (betAmount b) 100); [reflexivity |].
  destruct (Qltb (balance user) (betAmount b)); [reflexivity |].
  rewrite Hg. unfold betHistory. simpl bets.
  fold (bet_id_of env drawn). rewrite (map_set_fresh _ _ _ Hfresh).
  unfold map_values. rewrite map_app, filter_app. simpl map.
  rewrite filter_cons_False, filter_nil, app_nil_r; [reflexivity |].
  simpl. unfold settle. destruct (won res); simpl; congruence.
Qed.

Lemma other_history_unaffected_witness :
  users bob_bet_world !! "alice" = Some alice /\
  uid alice = "alice" /\
  "alice" <> "bob" /\
  switch_game later_env wheel_100
    = Some (Ret (processWheelGame 100 (3 # 4)), 1%nat) /\
  fresh_id (bet_id_of later_env 1) (bets bob_bet_world) = true /\
  length (betHistory "bob" bob_bet_world) = 1%nat /\
  length (bets (snd (placeBet later_env "alice" wheel_100 bob_bet_world)))
    = 2%nat /\
  betHistory "bob" (snd (placeBet later_env "alice" wheel_100 bob_bet_world))
    = betHistory "bob" bob_bet_world.
Proof.
  assert (Hu : users bob_bet_world !! "alice" = Some alice) by reflexivity.
  assert (Hid : uid alice = "alice") by reflexivity.
  assert (Hne : "alice" <> "bob") by discriminate.
  assert (Hg : switch_game later_env wheel_100
               = Some (Ret (processWheelGame 100 (3 # 4)), 1%nat))
    by reflexivity.
  assert (Hf : fresh_id (bet_id_of later_env 1) (bets bob_bet_world) = true)
    by reflexivity.
  split; [exact Hu |]. split; [exact Hid |]. split; [exact Hne |].
  split; [exact Hg |]. split; [exact Hf |].
  split; [reflexivity |]. split; [reflexivity |].
  exact (other_history_unaffected later_env "alice" "bob" wheel_100
           bob_bet_world alice _ 1%nat Hu Hid Hne Hg Hf).
Defined.



(** * Properties of the handlers on raw values *)

(** ** Rounding to a double *)

Lemma pow2_pos (e : Z) : 0 < pow2 e.
Proof. apply Qpower_0_lt. reflexivity. Qed.

Lemma pow2_add (a b : Z) : pow2 (a + b) == pow2 a * pow2 b.
Proof. apply Qpower_plus. discriminate. Qed.


Lemma pow2_lt_inv (a b : Z) : pow2 a < pow2 b -> (a < b)%Z.
Proof. intros H. apply (Qpower_lt_compat_l_inv 2); [exact H | reflexivity]. Qed.

Lemma pow2_nonneg_Z (n : Z) : (0 <= n)%Z -> pow2 n == inject_Z (2 ^ n).
Proof. intros H. unfold pow2. now rewrite (Zpower_Qpower 2 n H). Qed.

Lemma pow2_opp (n : Z) : pow2 (- n) == / pow2 n.
Proof. apply Qpower_opp. Qed.

Lemma round_half_even_bounds (m : Q) :
  m - (1 # 2) <= inject_Z (round_half_even m) <= m + (1 # 2).
Proof.
  unfold round_half_even.
  pose proof (Qfloor_le m) as Hlo. pose proof (Qlt_floor m) as Hhi.
  rewrite inject_Z_plus in Hhi. change (inject_Z 1) with 1 in Hhi.
  destruct (Qcompare_spec (m - inject_Z (Qfloor m)) (1 # 2)) as [He | Hl | Hg].
  - destruct (Z.even (Qfloor m)); rewrite ?inject_Z_plus;
      change (inject_Z 1) with 1; lra.
  - lra.
  - rewrite inject_Z_plus. change (inject_Z 1) with 1. lra.
Qed.

Lemma binade_spec (x : Q) :
  0 < x -> pow2 (binade x) <= x < pow2 (binade x + 1).
Proof.
  intros Hx. unfold binade. destruct (Qle_bool 1 x) eqn:H1.
  - apply Qle_bool_iff in H1.
    assert (Hf : (1 <= Qfloor x)%Z).
    { change 1%Z with (Qfloor 1). now apply Qfloor_resp_le. }
    pose proof (Z.log2_spec (Qfloor x) ltac:(lia)) as [Hl Hu].
    pose proof (Z.log2_nonneg (Qfloor x)) as Hnn.
    rewrite !pow2_nonneg_Z by lia. split.
    + apply Qle_trans with (inject_Z (Qfloor x)); [| apply Qfloor_le].
      now rewrite <- Zle_Qle.
    + apply Qlt_le_trans with (inject_Z (Qfloor x + 1)); [apply Qlt_floor |].
      rewrite <- Zle_Qle. unfold Z.succ in Hu. lia.
  - assert (Hx1 : x < 1).
    { apply Qnot_le_lt. intros H. apply Qle_bool_iff in H. congruence. }
    remember (/ x) as y eqn:Ey. assert (Hy : 1 < y).
    { subst y. apply Qlt_shift_inv_l; [exact Hx | lra]. }
    remember (Qceiling y) as c eqn:Ec.
    assert (Hc : (1 < c)%Z).
    { subst c. rewrite Zlt_Qlt. eapply Qlt_le_trans; [exact Hy | apply Qle_ceiling]. }
    pose proof (Z.log2_up_spec c Hc) as [Hl Hu].
    pose proof (Z.log2_up_nonneg c) as Hnn.
    assert (Hkpos : (0 < Z.log2_up c)%Z) by (apply Z.log2_up_pos; exact Hc).
    set (k := Z.log2_up c) in *.
    assert (Hyx : x * y == 1) by (subst y; field; lra).
    split.
    + rewrite pow2_opp, pow2_nonneg_Z by lia.
      assert (Hyk : y <= inject_Z (2 ^ k)).
      { eapply Qle_trans; [apply Qle_ceiling |]. rewrite <- Ec. now rewrite <- Zle_Qle. }
      apply Qle_shift_inv_r; [lra |].
      assert (H : x * y <= x * inject_Z (2 ^ k))
        by (apply Qmult_le_l; assumption).
      lra.
    + replace (- k + 1)%Z with (- (k - 1))%Z by lia.
      rewrite pow2_opp, pow2_nonneg_Z by lia.
      assert (Hky : inject_Z (2 ^ (k - 1)) < y).
      { apply Qle_lt_trans with (inject_Z (c - 1)).
        - rewrite <- Zle_Qle. rewrite <- Z.sub_1_r in Hl. lia.
        - subst c. apply Qceiling_lt. }
      assert (Hp : 0 < inject_Z (2 ^ (k - 1))).
      { change 0 with (inject_Z 0). rewrite <- Zlt_Qlt. apply Z.pow_pos_nonneg; lia. }
      apply Qlt_shift_inv_l; [exact Hp |].
      assert (H : x * inject_Z (2 ^ (k - 1)) < x * y)
        by (apply Qmult_lt_l; assumption).
      lra.
Qed.

Lemma round_half_even_ge_floor (m : Q) : (Qfloor m <= round_half_even m)%Z.
Proof.
  unfold round_half_even.
  destruct (Qcompare _ _); [destruct (Z.even _) | |]; lia.
Qed.

Lemma round_half_even_Z (k : Z) : round_half_even (inject_Z k) = k.
Proof.
  unfold round_half_even. rewrite Qfloor_Z.
  destruct (Qcompare_spec (inject_Z k - inject_Z k) (1 # 2)) as [H | H | H];
    try reflexivity; lra.
Qed.

Lemma round_half_even_comp (m m' : Q) :
  m == m' -> round_half_even m = round_half_even m'.
Proof.
  intros H. unfold round_half_even. rewrite (Qfloor_comp _ _ H).
  rewrite H. reflexivity.
Qed.

Lemma ulp_pos (x : Q) : 0 < ulp x.
Proof. apply pow2_pos. Qed.

Lemma round_double_pos (x : Q) :
  0 < x -> round_double x = inject_Z (round_half_even (x / ulp x)) * ulp x.
Proof.
  intros H. unfold round_double.
  destruct (Qcompare_spec x 0) as [E | L | G]; [lra | lra | reflexivity].
Qed.

Lemma round_double_nonneg (x : Q) : 0 <= x -> 0 <= round_double x.
Proof.
  intros H. unfold round_double.
  destruct (Qcompare_spec x 0) as [E | L | G]; [lra | lra |].
  apply Qmult_le_0_compat; [| apply Qlt_le_weak, ulp_pos].
  change 0 with (inject_Z 0). rewrite <- Zle_Qle.
  etransitivity; [| apply round_half_even_ge_floor].
  change 0%Z with (Qfloor 0). apply Qfloor_resp_le.
  apply Qle_shift_div_l; [apply ulp_pos | lra].
Qed.



Lemma binade_lt (x : Q) (k : Z) : 0 < x -> x < pow2 k -> (binade x < k)%Z.
Proof.
  intros Hx Hk. destruct (binade_spec x Hx) as [Blo _].
  apply pow2_lt_inv. eapply Qle_lt_trans; eassumption.
Qed.



(** Below 2^53 the integers lie on the grid of doubles: the inverse of the
    unit in the last place is a whole power of two. *)
Lemma ulp_grid (x : Q) :
  0 < x -> (binade x <= 52)%Z ->
  exists p : Z, (0 <= p)%Z /\ ulp x * inject_Z (2 ^ p) == 1.
Proof.
  intros Hx Hb. unfold ulp. set (E := Z.max (binade x) (-1022)).
  exists (52 - E)%Z. split; [unfold E; lia |].
  assert (Hp : pow2 (52 - E) == inject_Z (2 ^ (52 - E)))
    by (apply pow2_nonneg_Z; unfold E; lia).
  rewrite <- Hp, <- pow2_add.
  replace (E - 52 + (52 - E))%Z with 0%Z by lia. reflexivity.
Qed.

(** Rounding never crosses an integer. *)
Lemma round_double_ge_int (x : Q) (K : Z) :
  0 < x -> (binade x <= 52)%Z -> inject_Z K <= x -> inject_Z K <= round_double x.
Proof.
  intros Hx Hb HK. rewrite (round_double_pos x Hx).
  destruct (ulp_grid x Hx Hb) as (p & Hp & Hg).
  pose proof (ulp_pos x) as Hu.
  assert (Hm : inject_Z (K * 2 ^ p) <= x / ulp x).
  { apply Qle_shift_div_l; [exact Hu |]. rewrite inject_Z_mult.
    setoid_replace (inject_Z K * inject_Z (2 ^ p) * ulp x)
      with (inject_Z K * (ulp x * inject_Z (2 ^ p))) using relation Qeq by ring.
    rewrite Hg. lra. }
  assert (Hr : (K * 2 ^ p <= round_half_even (x / ulp x))%Z).
  { etransitivity; [| apply round_half_even_ge_floor].
    rewrite <- (Qfloor_Z (K * 2 ^ p)). now apply Qfloor_resp_le. }
  rewrite Zle_Qle, inject_Z_mult in Hr.
  assert (H : inject_Z K * inject_Z (2 ^ p) * ulp x
              <= inject_Z (round_half_even (x / ulp x)) * ulp x)
    by (apply Qmult_le_r; assumption).
  eapply Qle_trans; [| exact H].
  setoid_replace (inject_Z K * inject_Z (2 ^ p) * ulp x)
    with (inject_Z K * (ulp x * inject_Z (2 ^ p))) using relation Qeq by ring.
  rewrite Hg. lra.
Qed.

Lemma round_double_le_int (x : Q) (K : Z) :
  0 < x -> (binade x <= 52)%Z -> x <= inject_Z K -> round_double x <= inject_Z K.
Proof.
  intros Hx Hb HK. rewrite (round_double_pos x Hx).
  destruct (ulp_grid x Hx Hb) as (p & Hp & Hg).
  pose proof (ulp_pos x) as Hu.
  assert (Hm : x / ulp x <= inject_Z (K * 2 ^ p)).
  { apply Qle_shift_div_r; [exact Hu |]. rewrite inject_Z_mult.
    setoid_replace (inject_Z K * inject_Z (2 ^ p) * ulp x)
      with (inject_Z K * (ulp x * inject_Z (2 ^ p))) using relation Qeq by ring.
    rewrite Hg. lra. }
  pose proof (proj2 (round_half_even_bounds (x / ulp x))) as Hup.
  assert (Hr : (round_half_even (x / ulp x) <= K * 2 ^ p)%Z).
  { assert (H : inject_Z (round_half_even (x / ulp x))
                 < inject_Z (K * 2 ^ p + 1)).
    { rewrite inject_Z_plus. change (inject_Z 1) with 1. lra. }
    rewrite <- Zlt_Qlt in H. lia. }
  rewrite Zle_Qle, inject_Z_mult in Hr.
  assert (H : inject_Z (round_half_even (x / ulp x)) * ulp x
              <= inject_Z K * inject_Z (2 ^ p) * ulp x)
    by (apply Qmult_le_r; assumption).
  eapply Qle_trans; [exact H |].
  setoid_replace (inject_Z K * inject_Z (2 ^ p) * ulp x)
    with (inject_Z K * (ulp x * inject_Z (2 ^ p))) using relation Qeq by ring.
  rewrite Hg. lra.
Qed.

(** A positive number below [2^53] has a binade of at most 52. *)
Lemma binade_small (x : Q) :
  0 < x -> x < inject_Z (2 ^ 53) -> (binade x <= 52)%Z.
Proof.
  intros Hx H. assert (Hp : pow2 53 == inject_Z (2 ^ 53))
    by (apply pow2_nonneg_Z; lia).
  rewrite <- Hp in H. pose proof (binade_lt x 53 Hx H). lia.
Qed.

(** Integers of magnitude below 2^53 are doubles. *)
Lemma round_double_Z (k : Z) :
  (0 <= k < 2 ^ 53)%Z -> round_double (inject_Z k) == inject_Z k.
Proof.
  intros [H0 H53]. destruct (Z.eq_dec k 0%Z) as [-> | Hne]; [reflexivity |].
  assert (Hx : 0 < inject_Z k).
  { change 0 with (inject_Z 0). rewrite <- Zlt_Qlt. lia. }
  assert (Hb : (binade (inject_Z k) <= 52)%Z).
  { apply binade_small; [exact Hx | now rewrite <- Zlt_Qlt]. }
  apply Qle_antisym.
  - apply round_double_le_int; [exact Hx | exact Hb | apply Qle_refl].
  - apply round_double_ge_int; [exact Hx | exact Hb | apply Qle_refl].
Qed.





Lemma binade_comp (x y : Q) : x == y -> binade x = binade y.
Proof.
  intros H. unfold binade.
  assert (Hb : Qle_bool 1 x = Qle_bool 1 y).
  { destruct (Qle_bool 1 x) eqn:Hx, (Qle_bool 1 y) eqn:Hy; try reflexivity.
    - apply Qle_bool_iff in Hx. rewrite H in Hx. apply Qle_bool_iff in Hx.
      congruence.
    - apply Qle_bool_iff in Hy. rewrite <- H in Hy. apply Qle_bool_iff in Hy.
      congruence. }
  rewrite Hb, (Qfloor_comp _ _ H).
  assert (Hi : / x == / y) by (now rewrite H).
  rewrite (Qceiling_comp _ _ Hi). reflexivity.
Qed.

Lemma round_double_comp (x y : Q) : x == y -> round_double x == round_double y.
Proof.
  intros H. unfold round_double, ulp.
  assert (Hc : Qcompare x 0 = Qcompare y 0) by (now rewrite H).
  rewrite Hc. destruct (Qcompare y 0); [reflexivity | |].
  - assert (Hn : - x == - y) by (now rewrite H).
    rewrite (binade_comp _ _ Hn).
    assert (Hm : - x / pow2 (Z.max (binade (- y)) (-1022) - 52)
                 == - y / pow2 (Z.max (binade (- y)) (-1022) - 52))
      by (now rewrite H).
    now rewrite (round_half_even_comp _ _ Hm).
  - rewrite (binade_comp _ _ H).
    assert (Hm : x / pow2 (Z.max (binade y) (-1022) - 52)
                 == y / pow2 (Z.max (binade y) (-1022) - 52))
      by (now rewrite H).
    now rewrite (round_half_even_comp _ _ Hm).
Qed.

(** A non-negative integer below 2^53 is computed exactly. *)
Lemma round_double_integer (x : Q) :
  is_integer x = true -> 0 <= x -> x < inject_Z (2 ^ 53) ->
  round_double x == x.
Proof.
  intros Hi H0 H53. apply is_integer_spec in Hi as [z Hz].
  rewrite (round_double_comp _ _ Hz), Hz. apply round_double_Z.
  rewrite Hz in H0, H53. change 0 with (inject_Z 0) in H0.
  rewrite <- Zle_Qle in H0. rewrite <- Zlt_Qlt in H53. lia.
Qed.

(** ** The numbers game and the slot machine on doubles *)








(** ** The balance invariant on raw values *)


Lemma js_switch_game_numeric (env : Env) (b : Js.BetBody) (q : Q)
    (resolved : option Js.GameResult) (drawn : nat) :
  Js.betAmount b = Js.Num q -> 0 <= q ->
  Js.switch_game env b = Some (Ret resolved, drawn) ->
  exists res : Js.GameResult,
    resolved = Some res /\
    (Js.won res = true -> exists p : Q, Js.prize res = Js.Num p /\ 0 <= p).
Proof.
  intros Hq H0. unfold Js.switch_game, Js.processNumbersGame,
    Js.processCoinGame, Js.processSlotsGame, Js.processWheelGame.
  rewrite Hq.
  assert (Hmul : forall m : Q, 0 <= m -> 0 <= round_double (q * m)).
  { intros m Hm. apply round_double_nonneg. now apply Qmult_le_0_compat. }
  destruct (strict_eq_str (Js.game b) "numbers").
  { destruct (Js.gameData b); [| discriminate].
    intros H; inversion H; subst; clear H.
    destruct (strict_eq_num _ _); simpl; eexists; (split; [reflexivity |]);
      simpl; [| discriminate].
    intros _. eexists. split; [reflexivity |]. apply Hmul. lra. }
  destruct (strict_eq_str (Js.game b) "slots").
  { intros H; inversion H; subst; clear H. cbv zeta.
    destruct (_ && _); simpl; eexists; (split; [reflexivity |]);
      simpl; [| discriminate].
    intros _. eexists. split; [reflexivity |]. apply Hmul. lra. }
  destruct (strict_eq_str (Js.game b) "wheel").
  { intros H; inversion H; subst; clear H. cbv zeta.
    destruct (js_index prizes _) as [m |] eqn:Hm; simpl;
      eexists; (split; [reflexivity |]); simpl; [| discriminate].
    intros _. eexists. split; [reflexivity |].
    apply Hmul. exact (prizes_nonneg _ _ Hm). }
  destruct (strict_eq_str (Js.game b) "coin"); [| discriminate].
  destruct (Js.gameData b); [| discriminate].
  intros H; inversion H; subst; clear H.
  destruct (strict_eq_str _ _); simpl; eexists; (split; [reflexivity |]);
    simpl; [| discriminate].
  intros _. eexists. split; [reflexivity |]. apply Hmul. lra.
Qed.







(** ** Which raw requests are accepted *)





(** X13.  On an account holding a non-negative integer, a deposit of an
    integer amount of at least 1000 followed by a withdrawal of the same
    amount with a destination is always accepted and gives back the balance,
    provided balance + amount is below 2^53, where the two operations are
    exact on doubles. *)
Theorem deposit_then_withdraw_restores (env1 env2 : Env) (userId : string)
    (b : Js.WithdrawBody) (w : Js.World) (user : Js.User) (bal q : Q) :
  Js.users w !! userId = Some user ->
  Js.balance user = Js.Num bal -> Js.amount b = Js.Num q ->
  is_integer bal = true -> is_integer q = true ->
  0 <= bal -> 1000 <= q -> bal + q < inject_Z (2 ^ 53) ->
  truthy (Js.iban b) = true -> truthy (Js.accountName b) = true ->
  exists (r1 : Js.Response) (w1 : Js.World) (tx : Js.Transaction)
         (w2 : Js.World) (user2 : Js.User) (b2 : Q),
    Js.deposit env1 userId (Js.amount b) w = Some (r1, w1) /\
    Js.withdraw env2 userId b w1 = Some (Js.TxOk (Js.Num b2) tx, w2) /\
    Js.users w2 !! userId = Some user2 /\
    Js.balance user2 = Js.Num b2 /\ b2 == bal /\
    Js.totalBet user2 = Js.totalBet user /\
    Js.totalWon user2 = Js.totalWon user.
Proof.
  intros Hu Hbal Hq Hib Hiq H0 Hmin H53 Hi Hn.
  assert (Hsum : round_double (bal + q) == bal + q).
  { apply round_double_integer; [now apply is_integer_plus | lra | exact H53]. }
  assert (Hback : round_double (round_double (bal + q) - q) == bal).
  { assert (E : round_double (bal + q) - q == bal) by (rewrite Hsum; ring).
    rewrite (round_double_comp _ _ E).
    apply round_double_integer; [exact Hib | exact H0 | lra]. }
  unfold Js.deposit. rewrite Hu, Hbal, Hq. simpl.
  rewrite (proj2 (Qltb_ge _ _) Hmin). simpl.
  eexists. eexists. eexists. eexists. eexists.
  exists (round_double (round_double (bal + q) - q)).
  split; [reflexivity |].
  unfold Js.withdraw. simpl. rewrite lookup_insert_eq, Hq. simpl.
  rewrite (proj2 (Qltb_ge _ _) Hmin). simpl.
  assert (Hle : Qltb (round_double (bal + q)) q = false)
    by (apply Qltb_ge; rewrite Hsum; lra).
  rewrite Hle, Hi, Hn. simpl.
  split; [reflexivity |]. simpl.
  split; [apply lookup_insert_eq |]. simpl.
  split; [reflexivity |]. split; [exact Hback |]. split; reflexivity.
Qed.

Lemma deposit_then_withdraw_restores_witness :
  Js.users js_fresh_world !! "alice" = Some js_alice /\
  exists (r1 : Js.Response) (w1 : Js.World) (tx : Js.Transaction)
         (w2 : Js.World) (user2 : Js.User) (b2 : Q),
    Js.deposit sample_env "alice" (Js.Num 5000) js_fresh_world = Some (r1, w1) /\
    Js.withdraw later_env "alice"
      (Js.mkWithdrawBody (Js.Num 5000) (JStr "AO06") (JStr "Alice")) w1
      = Some (Js.TxOk (Js.Num b2) tx, w2) /\
    Js.users w2 !! "alice" = Some user2 /\
    Js.balance user2 = Js.Num b2 /\ b2 == 100000 /\
    Js.totalBet user2 = Js.totalBet js_alice /\
    Js.totalWon user2 = Js.totalWon js_alice.
Proof.
  assert (Hu : Js.users js_fresh_world !! "alice" = Some js_alice)
    by reflexivity.
  split; [exact Hu |].
  refine (deposit_then_withdraw_restores sample_env later_env "alice"
            (Js.mkWithdrawBody (Js.Num 5000) (JStr "AO06") (JStr "Alice"))
            js_fresh_world js_alice 100000 5000 Hu eq_refl eq_refl
            eq_refl eq_refl _ _ _ eq_refl eq_refl).
  - lra.
  - lra.
  - unfold Qlt. simpl. lia.
Defined.

Lemma js_switch_game_cases (env : Env) (b : Js.BetBody) :
  (known_game (Js.game b) = false -> Js.switch_game env b = None) /\
  (needs_gameData (Js.game b) = true -> Js.gameData b = None ->
   exists drawn : nat, Js.switch_game env b = Some (Throw, drawn)) /\
  (known_game (Js.game b) = true ->
   (needs_gameData (Js.game b) = true -> Js.gameData b <> None) ->
   exists (resolved : option Js.GameResult) (drawn : nat),
     Js.switch_game env b = Some (Ret resolved, drawn)).
Proof.
  unfold known_game, needs_gameData, Js.switch_game, Js.processNumbersGame,
    Js.processCoinGame.
  destruct (strict_eq_str (Js.game b) "numbers") eqn:Hn; simpl.
  { split; [discriminate |]. split.
    - intros _ ->. eauto.
    - intros _ Hd. destruct (Js.gameData b); [eauto |]. now elim Hd. }
  destruct (strict_eq_str (Js.game b) "slots") eqn:Hs; simpl.
  { split; [discriminate |]. split; [| eauto].
    intros Hc _. exfalso. revert Hc Hs.
    destruct (Js.game b); simpl; try discriminate.
    destruct (String.eqb_spec s "coin") as [-> |]; discriminate. }
  destruct (strict_eq_str (Js.game b) "wheel") eqn:Hw; simpl.
  { split; [discriminate |]. split; [| eauto].
    intros Hc _. exfalso. revert Hc Hw.
    destruct (Js.game b); simpl; try discriminate.
    destruct (String.eqb_spec s "coin") as [-> |]; discriminate. }
  destruct (strict_eq_str (Js.game b) "coin") eqn:Hc; simpl.
  { split; [discriminate |]. split.
    - intros _ ->. eauto.
    - intros _ Hd. destruct (Js.gameData b); [eauto |]. now elim Hd. }
  split; [reflexivity |]. split; discriminate.
Qed.



(** ** The two embeddings agree on refusals

    Whether a numeric request is refused, and with which message, depends
    only on comparisons of numbers, which are exact on doubles: the handlers
    on raw values refuse exactly the numeric requests that the handlers of
    the first part refuse, with the same answer and the store unchanged. *)

Lemma deposit_refusals_agree (env : Env) (userId : string) (q : Q)
    (w : World) (jw : Js.World) (u : User) (ju : Js.User)
    (status : Z) (message : Message) :
  users w !! userId = Some u -> Js.users jw !! userId = Some ju ->
  Js.balance ju = Js.Num (balance u) ->
  (fst (deposit env userId q w) = Failure status message <->
   Js.deposit env userId (Js.Num q) jw = Some (Js.Failure status message, jw)).
Proof.
  intros Hu Hju Hbal. unfold deposit, Js.deposit. rewrite Hu, Hju, Hbal.
  simpl. destruct (Qltb q 1000); simpl.
  - split; intros H; inversion H; reflexivity.
  - split; intros H; discriminate.
Qed.

Lemma withdraw_refusals_agree (env : Env) (userId : string) (b : WithdrawBody)
    (jb : Js.WithdrawBody) (w : World) (jw : Js.World) (u : User)
    (ju : Js.User) (status : Z) (message : Message) :
  users w !! userId = Some u -> Js.users jw !! userId = Some ju ->
  Js.balance ju = Js.Num (balance u) ->
  Js.amount jb = Js.Num (amount b) ->
  Js.iban jb = iban b -> Js.accountName jb = accountName b ->
  (fst (withdraw env userId b w) = Failure status message <->
   Js.withdraw env userId jb jw = Some (Js.Failure status message, jw)).
Proof.
  intros Hu Hju Hbal Ha Hi Hn. unfold withdraw, Js.withdraw.
  rewrite Hu, Hju, Hbal, Ha, Hi, Hn. simpl.
  destruct (Qltb (amount b) 1000); simpl.
  { split; intros H; inversion H; reflexivity. }
  destruct (Qltb (balance u) (amount b)); simpl.
  { split; intros H; inversion H; reflexivity. }
  destruct (negb (truthy (iban b)) || negb (truthy (accountName b))); simpl.
  - split; intros H; inversion H; reflexivity.
  - split; intros H; discriminate.
Qed.

Lemma placeBet_refusals_agree (env : Env) (userId : string) (b : BetBody)
    (jb : Js.BetBody) (w : World) (jw : Js.World) (u : User) (ju : Js.User)
    (status : Z) (message : Message) :
  users w !! userId = Some u -> Js.users jw !! userId = Some ju ->
  Js.balance ju = Js.Num (balance u) ->
  (exists tb : Q, Js.totalBet ju = Js.Num tb) ->
  (exists tw : Q, Js.totalWon ju = Js.Num tw) ->
  Js.betAmount jb = Js.Num (betAmount b) ->
  Js.game jb = game b -> Js.gameData jb = gameData b ->
  (fst (placeBet env userId b w) = Failure status message <->
   Js.placeBet env userId jb jw = Some (Js.Failure status message, jw)).
Proof.
  intros Hu Hju Hbal [tb Htb] [tw Htw] Ha Hg Hd.
  destruct (js_switch_game_cases env jb) as (Junknown & Jthrow & Jknown).
  rewrite Hg in Junknown, Jthrow, Jknown. rewrite Hd in Jthrow, Jknown.
  unfold placeBet, Js.placeBet. rewrite Hu, Hju, Hbal, Ha. simpl.
  case_Qltb (betAmount b) 100; simpl.
  { split; intros H; inversion H; reflexivity. }
  destruct (Qltb (balance u) (betAmount b)); simpl.
  { split; intros H; inversion H; reflexivity. }
  destruct (known_game (game b)) eqn:Hk.
  - destruct (switch_game_known env b Hk) as (r & drawn & Hsw).
    pose proof (switch_game_throws env b Hk) as Hthrows.
    destruct r as [res |].
    + assert (Hdata : needs_gameData (game b) = true -> gameData b <> None).
      { intros Hneed Hnone.
        destruct (proj2 Hthrows (conj Hneed Hnone)) as [d' Hsw'].
        congruence. }
      destruct (Jknown eq_refl Hdata) as (resolved & d & Hjs).
      destruct (js_switch_game_numeric env jb (betAmount b) resolved d Ha
                  ltac:(lra) Hjs) as (jres & -> & Hprize).
      rewrite Hsw, Hjs. simpl. unfold Js.settle. rewrite Hbal, Htb, Htw.
      simpl.
      destruct (Js.won jres) eqn:Hwon;
        [destruct (Hprize eq_refl) as (p & Hp & _); rewrite Hp |]; simpl;
        (split; intros H; discriminate).
    + destruct (proj1 Hthrows (ex_intro _ drawn Hsw)) as [Hneed Hnone].
      destruct (Jthrow Hneed Hnone) as [d Hjs].
      rewrite Hsw, Hjs. split; intros H; inversion H; reflexivity.
  - rewrite (switch_game_unknown env b Hk), (Junknown eq_refl). simpl.
    split; intros H; inversion H; reflexivity.
Qed.
